(** * Fintribe: the storage layer and its REST handlers

    A shallow embedding of [server/storage.ts] (the [IStorage] interface, the
    in-memory [MemStorage] and the relational [DatabaseStorage]), of the
    table declarations of [shared/schema.ts] and of the route handlers of
    [server/routes.ts] that work on a validated body or on the parameters
    of the URL.

    Conventions.
    - JavaScript numbers that hold identifiers, counters and epoch
      milliseconds are integers of [Z]; [NaN] and fractions are outside the
      model.  A double counts exactly only up to [2^53], and an [integer]
      column takes only the integers of 32 bits: where a statement rests
      on it, the range is a hypothesis ([counts_exactly], [int4],
      [common_era]).
    - Strings are ASCII text ([String.string], without the character NUL,
      which a [text] column does not take); wallet addresses are
      hexadecimal text, for which [String.prototype.toLowerCase] maps
      [A-Z] to [a-z] and leaves every other character alone.
    - A nullable column ([number | null], [boolean | null], ...) is an
      [option]; [None] is [null].  A key that is absent from a JavaScript
      object reads as [undefined]; the records below hold [None] for it too.
    - [new Date()] and SQL [now()] read the clock: the operations that do so
      take the instant as the argument [now]. *)

From Stdlib Require Import ZArith Ascii String Sorted Lia.
From stdpp Require Import gmap strings list fin_maps pretty.

Local Open Scope Z_scope.

(** ** JavaScript strings *)

Module JsString.

(** An upper-case letter of ASCII, [A] (65) to [Z] (90). *)
Definition is_upper (c : ascii) : bool :=
  let n := nat_of_ascii c in ((65 <=? n) && (n <=? 90))%nat.

Definition lower_ascii (c : ascii) : ascii :=
  if is_upper c then ascii_of_nat (nat_of_ascii c + 32) else c.

(** [s.toLowerCase()]. *)
Fixpoint toLowerCase (s : string) : string :=
  match s with
  | EmptyString => EmptyString
  | String c r => String (lower_ascii c) (toLowerCase r)
  end.

(** Two characters that are the same letter up to case: equal, or one is an
    upper-case letter and the other its lower-case form. *)
Definition same_letter (c d : ascii) : Prop :=
  c = d
  ∨ (is_upper c = true ∧ d = ascii_of_nat (nat_of_ascii c + 32))
  ∨ (is_upper d = true ∧ c = ascii_of_nat (nat_of_ascii d + 32)).

(** [case_variant a b]: [a] and [b] have the same characters up to letter
    case.  This is defined without reference to [toLowerCase]. *)
Inductive case_variant : string → string → Prop :=
| cv_empty : case_variant EmptyString EmptyString
| cv_char c d s t :
    same_letter c d → case_variant s t → case_variant (String c s) (String d t).

(** A string made of spaces only. *)
Fixpoint all_spaces (s : string) : bool :=
  match s with
  | EmptyString => true
  | String c r => Ascii.eqb c " "%char && all_spaces r
  end.

Fixpoint take_chars (n : nat) (s : string) : string :=
  match n, s with
  | S n', String c r => String c (take_chars n' r)
  | _, _ => EmptyString
  end.

Fixpoint drop_chars (n : nat) (s : string) : string :=
  match n, s with
  | S n', String _ r => drop_chars n' r
  | _, _ => s
  end.

End JsString.

Import JsString.

(** ** JavaScript [Map]: a map that remembers insertion order

    [Map.prototype.values] and [entries] enumerate in insertion order, and
    [set] on a key that is present keeps the key's position.  [MemStorage]
    enumerates two of its maps ([groups] in [getGroups], [groupMembers] in
    [getUserGroup]); those two are association lists in insertion order.
    The maps that are only read by key are [gmap]s. *)

Module OMap.
Section omap.
Context {K : Type} `{EqDecision K} {V : Type}.

Fixpoint get (k : K) (m : list (K * V)) : option V :=
  match m with
  | [] => None
  | (k', v) :: r => if decide (k = k') then Some v else get k r
  end.

Fixpoint set (k : K) (v : V) (m : list (K * V)) : list (K * V) :=
  match m with
  | [] => [(k, v)]
  | (k', v') :: r => if decide (k = k') then (k, v) :: r else (k', v') :: set k v r
  end.

Definition values (m : list (K * V)) : list V := m.*2.

End omap.
End OMap.

(** ** The tables of [shared/schema.ts]

    For each table: the row type ([$inferSelect]), the insert type (the
    insert schema, which omits generated columns), and for the rows that
    have an [update*] operation the [Partial] payload.  An optional key of
    an insert type is [option (option _)]: [None] is a key left out,
    [Some None] an explicit [null]. *)

Record User := {
  user_id : Z;
  user_address : string;
  user_groupId : option Z;
  user_totalDeposits : option Z;
  user_creditScore : option Z;
  user_lastDepositTime : option Z;
  user_registered : option bool;
  user_isDefaulted : option bool }.

Record InsertUser := {
  iu_address : string;
  iu_groupId : option (option Z);
  iu_totalDeposits : option (option Z);
  iu_creditScore : option (option Z);
  iu_lastDepositTime : option (option Z);
  iu_registered : option (option bool);
  iu_isDefaulted : option (option bool) }.

Record PartialUser := {
  pu_id : option Z;
  pu_address : option string;
  pu_groupId : option (option Z);
  pu_totalDeposits : option (option Z);
  pu_creditScore : option (option Z);
  pu_lastDepositTime : option (option Z);
  pu_registered : option (option bool);
  pu_isDefaulted : option (option bool) }.

Record Group := {
  group_id : Z;
  group_name : string;
  group_admin : string;
  group_totalDeposits : option Z;
  group_totalLoaned : option Z }.

Record InsertGroup := {
  ig_name : string;
  ig_admin : string }.

Record PartialGroup := {
  pg_id : option Z;
  pg_name : option string;
  pg_admin : option string;
  pg_totalDeposits : option (option Z);
  pg_totalLoaned : option (option Z) }.

Record GroupMember := {
  member_id : Z;
  member_groupId : Z;
  member_memberAddress : string }.

Record InsertGroupMember := {
  im_groupId : Z;
  im_memberAddress : string }.

Record Loan := {
  loan_id : Z;
  loan_borrowerAddress : string;
  loan_amount : Z;
  loan_dueDate : Z;
  loan_repaid : option bool;
  loan_approved : option bool;
  loan_defaulted : option bool;
  loan_createdAt : option Z }.

Record InsertLoan := {
  il_borrowerAddress : string;
  il_amount : Z;
  il_dueDate : Z;
  il_repaid : option (option bool);
  il_approved : option (option bool);
  il_defaulted : option (option bool) }.

Record PartialLoan := {
  pl_id : option Z;
  pl_borrowerAddress : option string;
  pl_amount : option Z;
  pl_dueDate : option Z;
  pl_repaid : option (option bool);
  pl_approved : option (option bool);
  pl_defaulted : option (option bool);
  pl_createdAt : option (option Z) }.

Record Guarantor := {
  guarantor_id : Z;
  guarantor_loanId : Z;
  guarantor_guarantorAddress : string;
  guarantor_approved : option bool }.

Record InsertGuarantor := {
  igu_loanId : Z;
  igu_guarantorAddress : string;
  igu_approved : option (option bool) }.

Record Proposal := {
  proposal_id : Z;
  proposal_groupId : Z;
  proposal_description : string;
  proposal_votesYes : option Z;
  proposal_votesNo : option Z;
  proposal_deadline : Z;
  proposal_executed : option bool;
  proposal_createdAt : option Z }.

Record InsertProposal := {
  ip_groupId : Z;
  ip_description : string;
  ip_deadline : Z }.

Record PartialProposal := {
  pp_id : option Z;
  pp_groupId : option Z;
  pp_description : option string;
  pp_votesYes : option (option Z);
  pp_votesNo : option (option Z);
  pp_deadline : option Z;
  pp_executed : option (option bool);
  pp_createdAt : option (option Z) }.

Record Vote := {
  vote_id : Z;
  vote_proposalId : Z;
  vote_voterAddress : string;
  vote_vote : bool }.

Record InsertVote := {
  iv_proposalId : Z;
  iv_voterAddress : string;
  iv_vote : bool }.

(** [timestamp] is declared nullable, but both stores set it on insert and
    no operation updates an activity, so it is never [null]. *)
Record Activity := {
  activity_id : Z;
  activity_groupId : Z;
  activity_userAddress : string;
  activity_activityType : string;
  activity_description : string;
  activity_timestamp : Z }.

Record InsertActivity := {
  ia_groupId : Z;
  ia_userAddress : string;
  ia_activityType : string;
  ia_description : string }.

(** The value an object spread [{ ...x }] copies for an optional key. *)
Definition spread_key {A} (x : option (option A)) : option A :=
  match x with Some v => v | None => None end.

(** [{ ...user, ...data }]: the keys of [data] win. *)
Definition spread_user (u : User) (d : PartialUser) : User := {|
  user_id := default (user_id u) (pu_id d);
  user_address := default (user_address u) (pu_address d);
  user_groupId := default (user_groupId u) (pu_groupId d);
  user_totalDeposits := default (user_totalDeposits u) (pu_totalDeposits d);
  user_creditScore := default (user_creditScore u) (pu_creditScore d);
  user_lastDepositTime := default (user_lastDepositTime u) (pu_lastDepositTime d);
  user_registered := default (user_registered u) (pu_registered d);
  user_isDefaulted := default (user_isDefaulted u) (pu_isDefaulted d) |}.

Definition spread_group (g : Group) (d : PartialGroup) : Group := {|
  group_id := default (group_id g) (pg_id d);
  group_name := default (group_name g) (pg_name d);
  group_admin := default (group_admin g) (pg_admin d);
  group_totalDeposits := default (group_totalDeposits g) (pg_totalDeposits d);
  group_totalLoaned := default (group_totalLoaned g) (pg_totalLoaned d) |}.

Definition spread_loan (l : Loan) (d : PartialLoan) : Loan := {|
  loan_id := default (loan_id l) (pl_id d);
  loan_borrowerAddress := default (loan_borrowerAddress l) (pl_borrowerAddress d);
  loan_amount := default (loan_amount l) (pl_amount d);
  loan_dueDate := default (loan_dueDate l) (pl_dueDate d);
  loan_repaid := default (loan_repaid l) (pl_repaid d);
  loan_approved := default (loan_approved l) (pl_approved d);
  loan_defaulted := default (loan_defaulted l) (pl_defaulted d);
  loan_createdAt := default (loan_createdAt l) (pl_createdAt d) |}.

Definition spread_proposal (p : Proposal) (d : PartialProposal) : Proposal := {|
  proposal_id := default (proposal_id p) (pp_id d);
  proposal_groupId := default (proposal_groupId p) (pp_groupId d);
  proposal_description := default (proposal_description p) (pp_description d);
  proposal_votesYes := default (proposal_votesYes p) (pp_votesYes d);
  proposal_votesNo := default (proposal_votesNo p) (pp_votesNo d);
  proposal_deadline := default (proposal_deadline p) (pp_deadline d);
  proposal_executed := default (proposal_executed p) (pp_executed d);
  proposal_createdAt := default (proposal_createdAt p) (pp_createdAt d) |}.

(** The payload [{ votesYes, votesNo }] that [addVote] hands to
    [updateProposal]. *)
Definition tally_payload (votesYes votesNo : option Z) : PartialProposal := {|
  pp_id := None; pp_groupId := None; pp_description := None;
  pp_votesYes := Some votesYes; pp_votesNo := Some votesNo;
  pp_deadline := None; pp_executed := None; pp_createdAt := None |}.

(** [x + 1] for [x : number | null]: [null] converts to [0]. *)
Definition js_number (x : option Z) : Z := default 0 x.
Definition js_succ (x : option Z) : option Z := Some (js_number x + 1).

(** A JavaScript number is a double: [x + 1] is the integer successor where
    [x] and [x + 1] are both integers that a double holds, from [- 2^53] up
    to, but not at, [2^53] (at [2^53] the sum is [2^53] again).  [js_succ]
    is the successor; what is stated of a tally that [addVote] moves is
    stated for tallies in that range. *)
Definition counts_exactly (n : Z) : Prop := - 2 ^ 53 <= n < 2 ^ 53.

(** [Array.prototype.slice(0, limit)]: a negative [limit] counts from the
    end of the array. *)
Definition slice0 {A} (l : list A) (limit : Z) : list A :=
  let len := Z.of_nat (length l) in
  let final := if limit <? 0 then Z.max (len + limit) 0 else Z.min limit len in
  take (Z.to_nat final) l.

(** [[...activities].sort((a, b) => b.timestamp.getTime() - a.timestamp.getTime())]:
    a stable sort (ECMAScript 2019), so the result is determined: descending
    timestamps, records with equal timestamps in their original order.
    Insertion from the right end is such a sort. *)
Fixpoint insert_desc (a : Activity) (l : list Activity) : list Activity :=
  match l with
  | [] => [a]
  | b :: r =>
      if activity_timestamp a <? activity_timestamp b
      then b :: insert_desc a r
      else a :: b :: r
  end.

Fixpoint sort_desc (l : list Activity) : list Activity :=
  match l with
  | [] => []
  | a :: r => insert_desc a (sort_desc r)
  end.


(** ** Awaiting a storage call

    An operation of the relational store resolves to a value or rejects with
    the error of the statement that failed. *)

Inductive DbError :=
| UniqueViolation            (* a primary key or a unique column repeats *)
| StringTooLong              (* value too long for type character varying(n) *)
| UndefinedColumn (name : string)  (* column "name" does not exist *)
| UndefinedOperator.         (* operator does not exist *)

Inductive result (A : Type) :=
| Ok (a : A)
| Throw (e : DbError).
Arguments Ok {A} a.
Arguments Throw {A} e.

#[global] Instance result_bind : MBind result :=
  λ A B f x, match x with Ok a => f a | Throw e => Throw e end.

(** [Array.prototype.findIndex]; [None] stands for [-1]. *)
Fixpoint findIndex {A} (f : A → bool) (l : list A) : option nat :=
  match l with
  | [] => None
  | x :: r => if f x then Some 0%nat else S <$> findIndex f r
  end.

(** [a.toLowerCase() === b.toLowerCase()]. *)
Definition same_address (a b : string) : bool :=
  String.eqb (toLowerCase a) (toLowerCase b).

(** ** [MemStorage]: the in-memory store *)

Module MemStorage.

Record CurrentIds := {
  cur_user : Z;
  cur_group : Z;
  cur_groupMember : Z;
  cur_loan : Z;
  cur_guarantor : Z;
  cur_proposal : Z;
  cur_vote : Z;
  cur_activity : Z }.

Record state := {
  users : gmap string User;
  groups : list (Z * Group);
  groupMembers : list (Z * list GroupMember);
  loans : gmap Z Loan;
  loansByBorrower : gmap string (list Z);
  guarantors : gmap Z (list Guarantor);
  proposals : gmap Z Proposal;
  proposalsByGroup : gmap Z (list Z);
  votes : gmap Z (list Vote);
  activities : gmap Z (list Activity);
  currentIds : CurrentIds }.

(** The constructor: empty maps, every counter at 1. *)
Definition new : state := {|
  users := ∅; groups := []; groupMembers := []; loans := ∅;
  loansByBorrower := ∅; guarantors := ∅; proposals := ∅;
  proposalsByGroup := ∅; votes := ∅; activities := ∅;
  currentIds := {|
    cur_user := 1; cur_group := 1; cur_groupMember := 1; cur_loan := 1;
    cur_guarantor := 1; cur_proposal := 1; cur_vote := 1; cur_activity := 1 |} |}.

(** Assignments to one field of [this]. *)
Definition set_users (x : gmap string User) (s : state) : state := {|
  users := x; groups := groups s; groupMembers := groupMembers s;
  loans := loans s; loansByBorrower := loansByBorrower s;
  guarantors := guarantors s; proposals := proposals s;
  proposalsByGroup := proposalsByGroup s; votes := votes s;
  activities := activities s; currentIds := currentIds s |}.

Definition set_groups (x : list (Z * Group)) (s : state) : state := {|
  users := users s; groups := x; groupMembers := groupMembers s;
  loans := loans s; loansByBorrower := loansByBorrower s;
  guarantors := guarantors s; proposals := proposals s;
  proposalsByGroup := proposalsByGroup s; votes := votes s;
  activities := activities s; currentIds := currentIds s |}.

Definition set_groupMembers (x : list (Z * list GroupMember)) (s : state) : state := {|
  users := users s; groups := groups s; groupMembers := x;
  loans := loans s; loansByBorrower := loansByBorrower s;
  guarantors := guarantors s; proposals := proposals s;
  proposalsByGroup := proposalsByGroup s; votes := votes s;
  activities := activities s; currentIds := currentIds s |}.

Definition set_loans (x : gmap Z Loan) (s : state) : state := {|
  users := users s; groups := groups s; groupMembers := groupMembers s;
  loans := x; loansByBorrower := loansByBorrower s;
  guarantors := guarantors s; proposals := proposals s;
  proposalsByGroup := proposalsByGroup s; votes := votes s;
  activities := activities s; currentIds := currentIds s |}.

Definition set_loansByBorrower (x : gmap string (list Z)) (s : state) : state := {|
  users := users s; groups := groups s; groupMembers := groupMembers s;
  loans := loans s; loansByBorrower := x;
  guarantors := guarantors s; proposals := proposals s;
  proposalsByGroup := proposalsByGroup s; votes := votes s;
  activities := activities s; currentIds := currentIds s |}.

Definition set_guarantors (x : gmap Z (list Guarantor)) (s : state) : state := {|
  users := users s; groups := groups s; groupMembers := groupMembers s;
  loans := loans s; loansByBorrower := loansByBorrower s;
  guarantors := x; proposals := proposals s;
  proposalsByGroup := proposalsByGroup s; votes := votes s;
  activities := activities s; currentIds := currentIds s |}.

Definition set_proposals (x : gmap Z Proposal) (s : state) : state := {|
  users := users s; groups := groups s; groupMembers := groupMembers s;
  loans := loans s; loansByBorrower := loansByBorrower s;
  guarantors := guarantors s; proposals := x;
  proposalsByGroup := proposalsByGroup s; votes := votes s;
  activities := activities s; currentIds := currentIds s |}.

Definition set_proposalsByGroup (x : gmap Z (list Z)) (s : state) : state := {|
  users := users s; groups := groups s; groupMembers := groupMembers s;
  loans := loans s; loansByBorrower := loansByBorrower s;
  guarantors := guarantors s; proposals := proposals s;
  proposalsByGroup := x; votes := votes s;
  activities := activities s; currentIds := currentIds s |}.

Definition set_votes (x : gmap Z (list Vote)) (s : state) : state := {|
  users := users s; groups := groups s; groupMembers := groupMembers s;
  loans := loans s; loansByBorrower := loansByBorrower s;
  guarantors := guarantors s; proposals := proposals s;
  proposalsByGroup := proposalsByGroup s; votes := x;
  activities := activities s; currentIds := currentIds s |}.

Definition set_activities (x : gmap Z (list Activity)) (s : state) : state := {|
  users := users s; groups := groups s; groupMembers := groupMembers s;
  loans := loans s; loansByBorrower := loansByBorrower s;
  guarantors := guarantors s; proposals := proposals s;
  proposalsByGroup := proposalsByGroup s; votes := votes s;
  activities := x; currentIds := currentIds s |}.

Definition set_currentIds (x : CurrentIds) (s : state) : state := {|
  users := users s; groups := groups s; groupMembers := groupMembers s;
  loans := loans s; loansByBorrower := loansByBorrower s;
  guarantors := guarantors s; proposals := proposals s;
  proposalsByGroup := proposalsByGroup s; votes := votes s;
  activities := activities s; currentIds := x |}.

(** [this.currentIds.k++], for each counter [k]: the state after the
    increment; the value read is the counter before it. *)
Definition next_user (s : state) : state :=
  let c := currentIds s in
  set_currentIds {|
    cur_user := cur_user c + 1; cur_group := cur_group c;
    cur_groupMember := cur_groupMember c; cur_loan := cur_loan c;
    cur_guarantor := cur_guarantor c; cur_proposal := cur_proposal c;
    cur_vote := cur_vote c; cur_activity := cur_activity c |} s.

Definition next_group (s : state) : state :=
  let c := currentIds s in
  set_currentIds {|
    cur_user := cur_user c; cur_group := cur_group c + 1;
    cur_groupMember := cur_groupMember c; cur_loan := cur_loan c;
    cur_guarantor := cur_guarantor c; cur_proposal := cur_proposal c;
    cur_vote := cur_vote c; cur_activity := cur_activity c |} s.

Definition next_groupMember (s : state) : state :=
  let c := currentIds s in
  set_currentIds {|
    cur_user := cur_user c; cur_group := cur_group c;
    cur_groupMember := cur_groupMember c + 1; cur_loan := cur_loan c;
    cur_guarantor := cur_guarantor c; cur_proposal := cur_proposal c;
    cur_vote := cur_vote c; cur_activity := cur_activity c |} s.

Definition next_loan (s : state) : state :=
  let c := currentIds s in
  set_currentIds {|
    cur_user := cur_user c; cur_group := cur_group c;
    cur_groupMember := cur_groupMember c; cur_loan := cur_loan c + 1;
    cur_guarantor := cur_guarantor c; cur_proposal := cur_proposal c;
    cur_vote := cur_vote c; cur_activity := cur_activity c |} s.

Definition next_guarantor (s : state) : state :=
  let c := currentIds s in
  set_currentIds {|
    cur_user := cur_user c; cur_group := cur_group c;
    cur_groupMember := cur_groupMember c; cur_loan := cur_loan c;
    cur_guarantor := cur_guarantor c + 1; cur_proposal := cur_proposal c;
    cur_vote := cur_vote c; cur_activity := cur_activity c |} s.

Definition next_proposal (s : state) : state :=
  let c := currentIds s in
  set_currentIds {|
    cur_user := cur_user c; cur_group := cur_group c;
    cur_groupMember := cur_groupMember c; cur_loan := cur_loan c;
    cur_guarantor := cur_guarantor c; cur_proposal := cur_proposal c + 1;
    cur_vote := cur_vote c; cur_activity := cur_activity c |} s.

Definition next_vote (s : state) : state :=
  let c := currentIds s in
  set_currentIds {|
    cur_user := cur_user c; cur_group := cur_group c;
    cur_groupMember := cur_groupMember c; cur_loan := cur_loan c;
    cur_guarantor := cur_guarantor c; cur_proposal := cur_proposal c;
    cur_vote := cur_vote c + 1; cur_activity := cur_activity c |} s.

Definition next_activity (s : state) : state :=
  let c := currentIds s in
  set_currentIds {|
    cur_user := cur_user c; cur_group := cur_group c;
    cur_groupMember := cur_groupMember c; cur_loan := cur_loan c;
    cur_guarantor := cur_guarantor c; cur_proposal := cur_proposal c;
    cur_vote := cur_vote c; cur_activity := cur_activity c + 1 |} s.

(** *** User operations *)

Definition getUser (s : state) (address : string) : option User :=
  users s !! toLowerCase address.

Definition createUser (s : state) (userData : InsertUser) : state * User :=
  let id := cur_user (currentIds s) in
  let s := next_user s in
  let address := toLowerCase (iu_address userData) in
  let user := {|
    user_id := id;
    user_address := address;
    user_groupId := spread_key (iu_groupId userData);
    user_totalDeposits := spread_key (iu_totalDeposits userData);
    user_creditScore := spread_key (iu_creditScore userData);
    user_lastDepositTime := spread_key (iu_lastDepositTime userData);
    user_registered := spread_key (iu_registered userData);
    user_isDefaulted := spread_key (iu_isDefaulted userData) |} in
  (set_users (<[address := user]> (users s)) s, user).

Definition updateUser (s : state) (address : string) (data : PartialUser)
  : state * option User :=
  match getUser s address with
  | None => (s, None)
  | Some user =>
      let updatedUser := spread_user user data in
      (set_users (<[toLowerCase address := updatedUser]> (users s)) s,
       Some updatedUser)
  end.

(** *** Group operations *)

Definition getGroup (s : state) (id : Z) : option Group :=
  OMap.get id (groups s).

Definition getGroups (s : state) : list Group :=
  OMap.values (groups s).

Definition addGroupMember (s : state) (memberData : InsertGroupMember)
  : state * GroupMember :=
  let id := cur_groupMember (currentIds s) in
  let s := next_groupMember s in
  let member := {|
    member_id := id;
    member_groupId := im_groupId memberData;
    member_memberAddress := im_memberAddress memberData |} in
  let members := default [] (OMap.get (im_groupId memberData) (groupMembers s)) in
  let members := members ++ [member] in
  (set_groupMembers (OMap.set (im_groupId memberData) members (groupMembers s)) s,
   member).

Definition createGroup (s : state) (groupData : InsertGroup) : state * Group :=
  let id := cur_group (currentIds s) in
  let s := next_group s in
  let group := {|
    group_id := id;
    group_name := ig_name groupData;
    group_admin := ig_admin groupData;
    group_totalDeposits := Some 0;
    group_totalLoaned := Some 0 |} in
  let s := set_groups (OMap.set id group (groups s)) s in
  let s := set_groupMembers (OMap.set id [] (groupMembers s)) s in
  let s := set_proposalsByGroup (<[id := []]> (proposalsByGroup s)) s in
  (* Add group admin as the first member *)
  let s := (addGroupMember s
              {| im_groupId := id; im_memberAddress := ig_admin groupData |}).1 in
  (s, group).

Definition updateGroup (s : state) (id : Z) (data : PartialGroup)
  : state * option Group :=
  match getGroup s id with
  | None => (s, None)
  | Some group =>
      let updatedGroup := spread_group group data in
      (set_groups (OMap.set id updatedGroup (groups s)) s, Some updatedGroup)
  end.

Definition getGroupMembers (s : state) (groupId : Z) : list User :=
  let members := default [] (OMap.get groupId (groupMembers s)) in
  omap (λ member, getUser s (member_memberAddress member)) members.

Definition isGroupMember (s : state) (groupId : Z) (address : string) : bool :=
  let members := default [] (OMap.get groupId (groupMembers s)) in
  existsb (λ m, same_address (member_memberAddress m) address) members.

Definition getUserGroup (s : state) (address : string) : option Group :=
  match
    List.find
      (λ e : Z * list GroupMember,
         existsb (λ m, same_address (member_memberAddress m) address) e.2)
      (groupMembers s)
  with
  | Some (groupId, _) => getGroup s groupId
  | None => None
  end.

(** *** Loan operations *)

Definition getLoan (s : state) (id : Z) : option Loan := loans s !! id.

Definition getUserLoans (s : state) (address : string) : list Loan :=
  let loanIds := default [] (loansByBorrower s !! toLowerCase address) in
  omap (getLoan s) loanIds.

Definition createLoan (s : state) (now : Z) (loanData : InsertLoan) : state * Loan :=
  let id := cur_loan (currentIds s) in
  let s := next_loan s in
  let loan := {|
    loan_id := id;
    loan_borrowerAddress := il_borrowerAddress loanData;
    loan_amount := il_amount loanData;
    loan_dueDate := il_dueDate loanData;
    loan_repaid := spread_key (il_repaid loanData);
    loan_approved := spread_key (il_approved loanData);
    loan_defaulted := spread_key (il_defaulted loanData);
    loan_createdAt := Some now |} in
  let s := set_loans (<[id := loan]> (loans s)) s in
  let borrower := toLowerCase (il_borrowerAddress loanData) in
  let loanIds := default [] (loansByBorrower s !! borrower) in
  let loanIds := loanIds ++ [id] in
  let s := set_loansByBorrower (<[borrower := loanIds]> (loansByBorrower s)) s in
  let s := set_guarantors (<[id := []]> (guarantors s)) s in
  (s, loan).

Definition updateLoan (s : state) (id : Z) (data : PartialLoan)
  : state * option Loan :=
  match getLoan s id with
  | None => (s, None)
  | Some loan =>
      let updatedLoan := spread_loan loan data in
      (set_loans (<[id := updatedLoan]> (loans s)) s, Some updatedLoan)
  end.

(** *** Guarantor operations *)

Definition getLoanGuarantors (s : state) (loanId : Z) : list Guarantor :=
  default [] (guarantors s !! loanId).

Definition addGuarantor (s : state) (guarantorData : InsertGuarantor)
  : state * Guarantor :=
  let id := cur_guarantor (currentIds s) in
  let s := next_guarantor s in
  let guarantor := {|
    guarantor_id := id;
    guarantor_loanId := igu_loanId guarantorData;
    guarantor_guarantorAddress := igu_guarantorAddress guarantorData;
    guarantor_approved := spread_key (igu_approved guarantorData) |} in
  let gs := default [] (guarantors s !! igu_loanId guarantorData) in
  let gs := gs ++ [guarantor] in
  (set_guarantors (<[igu_loanId guarantorData := gs]> (guarantors s)) s, guarantor).

Definition updateGuarantor (s : state) (loanId : Z) (address : string)
  (approved : bool) : state * option Guarantor :=
  let gs := default [] (guarantors s !! loanId) in
  match findIndex (λ g, same_address (guarantor_guarantorAddress g) address) gs with
  | None => (s, None)
  | Some index =>
      match gs !! index with
      | None => (s, None)
      | Some guarantor =>
          let updatedGuarantor := {|
            guarantor_id := guarantor_id guarantor;
            guarantor_loanId := guarantor_loanId guarantor;
            guarantor_guarantorAddress := guarantor_guarantorAddress guarantor;
            guarantor_approved := Some approved |} in
          let gs := <[index := updatedGuarantor]> gs in
          (set_guarantors (<[loanId := gs]> (guarantors s)) s, Some updatedGuarantor)
      end
  end.

(** *** Proposal operations *)

Definition getProposal (s : state) (id : Z) : option Proposal := proposals s !! id.

Definition getGroupProposals (s : state) (groupId : Z) : list Proposal :=
  let proposalIds := default [] (proposalsByGroup s !! groupId) in
  omap (getProposal s) proposalIds.

Definition createProposal (s : state) (now : Z) (proposalData : InsertProposal)
  : state * Proposal :=
  let id := cur_proposal (currentIds s) in
  let s := next_proposal s in
  let proposal := {|
    proposal_id := id;
    proposal_groupId := ip_groupId proposalData;
    proposal_description := ip_description proposalData;
    proposal_votesYes := Some 0;
    proposal_votesNo := Some 0;
    proposal_deadline := ip_deadline proposalData;
    proposal_executed := Some false;
    proposal_createdAt := Some now |} in
  let s := set_proposals (<[id := proposal]> (proposals s)) s in
  let proposalIds := default [] (proposalsByGroup s !! ip_groupId proposalData) in
  let proposalIds := proposalIds ++ [id] in
  let s := set_proposalsByGroup
             (<[ip_groupId proposalData := proposalIds]> (proposalsByGroup s)) s in
  let s := set_votes (<[id := []]> (votes s)) s in
  (s, proposal).

Definition updateProposal (s : state) (id : Z) (data : PartialProposal)
  : state * option Proposal :=
  match getProposal s id with
  | None => (s, None)
  | Some proposal =>
      let updatedProposal := spread_proposal proposal data in
      (set_proposals (<[id := updatedProposal]> (proposals s)) s,
       Some updatedProposal)
  end.

(** *** Vote operations *)

Definition getVotes (s : state) (proposalId : Z) : list Vote :=
  default [] (votes s !! proposalId).

Definition addVote (s : state) (voteData : InsertVote) : state * Vote :=
  let id := cur_vote (currentIds s) in
  let s := next_vote s in
  let vote := {|
    vote_id := id;
    vote_proposalId := iv_proposalId voteData;
    vote_voterAddress := iv_voterAddress voteData;
    vote_vote := iv_vote voteData |} in
  let vs := default [] (votes s !! iv_proposalId voteData) in
  let vs := vs ++ [vote] in
  let s := set_votes (<[iv_proposalId voteData := vs]> (votes s)) s in
  (* Update proposal vote counts *)
  match getProposal s (iv_proposalId voteData) with
  | Some proposal =>
      let votesYes :=
        if iv_vote voteData then js_succ (proposal_votesYes proposal)
        else proposal_votesYes proposal in
      let votesNo :=
        if negb (iv_vote voteData) then js_succ (proposal_votesNo proposal)
        else proposal_votesNo proposal in
      ((updateProposal s (iv_proposalId voteData) (tally_payload votesYes votesNo)).1,
       vote)
  | None => (s, vote)
  end.

Definition hasVoted (s : state) (proposalId : Z) (address : string) : bool :=
  let vs := default [] (votes s !! proposalId) in
  existsb (λ v, same_address (vote_voterAddress v) address) vs.

(** *** Activity operations *)

(** [limit = 10] is the parameter's default: [None] is a call without it. *)
Definition getGroupActivities (s : state) (groupId : Z) (limit : option Z)
  : list Activity :=
  let limit := default 10 limit in
  let acts := default [] (activities s !! groupId) in
  slice0 (sort_desc acts) limit.

Definition addActivity (s : state) (now : Z) (activityData : InsertActivity)
  : state * Activity :=
  let id := cur_activity (currentIds s) in
  let s := next_activity s in
  let activity := {|
    activity_id := id;
    activity_groupId := ia_groupId activityData;
    activity_userAddress := ia_userAddress activityData;
    activity_activityType := ia_activityType activityData;
    activity_description := ia_description activityData;
    activity_timestamp := now |} in
  let acts := default [] (activities s !! ia_groupId activityData) in
  let acts := acts ++ [activity] in
  (set_activities (<[ia_groupId activityData := acts]> (activities s)) s, activity).

End MemStorage.

(** ** [DatabaseStorage]: the relational store

    A table is the list of its rows, in insertion order; a [serial] column
    draws its value from the table's sequence.  A statement either takes
    effect or throws and leaves every table as it was, and
    [db.transaction] does the same for the statements of its callback.
    PostgreSQL does not give back the sequence values that a failed
    statement or a transaction rolled back drew, and the model does not
    follow them: after a call that throws, what is stated of a database is
    stated of its tables ([same_rows] below), not of its sequences.
    The [integer] and [serial] columns hold the integers of [int4] and the
    [timestamp] columns the instants of [common_era]; a value outside is an
    error in PostgreSQL and is outside the model, so what is stated of an
    insert that resolves is stated for values inside.

    Embedded here are the reads and inserts of [DatabaseStorage], its two
    join queries and [updateGuarantor]; the [update*] operations that take
    a [Partial] payload are not. *)

Module DatabaseStorage.

Record Sequences := {
  users_id_seq : Z;
  groups_id_seq : Z;
  group_members_id_seq : Z;
  loans_id_seq : Z;
  guarantors_id_seq : Z;
  proposals_id_seq : Z;
  votes_id_seq : Z;
  activities_id_seq : Z }.

Record state := {
  users : list User;
  groups : list Group;
  groupMembers : list GroupMember;
  loans : list Loan;
  guarantors : list Guarantor;
  proposals : list Proposal;
  votes : list Vote;
  activities : list Activity;
  sequences : Sequences }.

(** A freshly migrated database. *)
Definition empty : state := {|
  users := []; groups := []; groupMembers := []; loans := [];
  guarantors := []; proposals := []; votes := []; activities := [];
  sequences := {|
    users_id_seq := 1; groups_id_seq := 1; group_members_id_seq := 1;
    loans_id_seq := 1; guarantors_id_seq := 1; proposals_id_seq := 1;
    votes_id_seq := 1; activities_id_seq := 1 |} |}.

(** Assignment to a [varchar(n)] column (PostgreSQL manual, 8.3 Character
    Types): a longer string is an error, unless the characters past the
    width are all spaces, in which case it is cut to the width. *)
Definition varchar (n : nat) (v : string) : result string :=
  if (String.length v <=? n)%nat then Ok v
  else if all_spaces (drop_chars n v) then Ok (take_chars n v)
  else Throw StringTooLong.

(** The value of a column with a [default] when the insert leaves its key
    out; an explicit [null] is stored as [NULL]. *)
Definition column_default {A} (dflt : A) (x : option (option A)) : option A :=
  match x with Some v => v | None => Some dflt end.

(** [db.transaction(async (tx) => ...)]: the callback's statements take
    effect together when it returns; when it throws, none does. *)
Definition transaction {A} (s : state) (body : state → result (state * A))
  : result (state * A) := body s.

(** *** [insert(table).values(v).returning()] *)

Definition insert_users (s : state) (now : Z) (v : InsertUser)
  : result (state * User) :=
  let q := sequences s in
  address ← varchar 42 (iu_address v);
  let row := {|
    user_id := users_id_seq q;
    user_address := address;
    user_groupId := spread_key (iu_groupId v);
    user_totalDeposits := column_default 0 (iu_totalDeposits v);
    user_creditScore := column_default 100 (iu_creditScore v);
    user_lastDepositTime := column_default now (iu_lastDepositTime v);
    user_registered := column_default false (iu_registered v);
    user_isDefaulted := column_default false (iu_isDefaulted v) |} in
  if existsb (λ u, user_id u =? user_id row) (users s)
     || existsb (λ u, String.eqb (user_address u) address) (users s)
  then Throw UniqueViolation
  else Ok ({|
    users := users s ++ [row]; groups := groups s;
    groupMembers := groupMembers s; loans := loans s;
    guarantors := guarantors s; proposals := proposals s; votes := votes s;
    activities := activities s;
    sequences := {|
      users_id_seq := users_id_seq q + 1; groups_id_seq := groups_id_seq q;
      group_members_id_seq := group_members_id_seq q;
      loans_id_seq := loans_id_seq q; guarantors_id_seq := guarantors_id_seq q;
      proposals_id_seq := proposals_id_seq q; votes_id_seq := votes_id_seq q;
      activities_id_seq := activities_id_seq q |} |}, row).

Definition insert_groups (s : state) (v : InsertGroup) : result (state * Group) :=
  let q := sequences s in
  admin ← varchar 42 (ig_admin v);
  let row := {|
    group_id := groups_id_seq q;
    group_name := ig_name v;
    group_admin := admin;
    group_totalDeposits := Some 0;
    group_totalLoaned := Some 0 |} in
  if existsb (λ g, group_id g =? group_id row) (groups s)
  then Throw UniqueViolation
  else Ok ({|
    users := users s; groups := groups s ++ [row];
    groupMembers := groupMembers s; loans := loans s;
    guarantors := guarantors s; proposals := proposals s; votes := votes s;
    activities := activities s;
    sequences := {|
      users_id_seq := users_id_seq q; groups_id_seq := groups_id_seq q + 1;
      group_members_id_seq := group_members_id_seq q;
      loans_id_seq := loans_id_seq q; guarantors_id_seq := guarantors_id_seq q;
      proposals_id_seq := proposals_id_seq q; votes_id_seq := votes_id_seq q;
      activities_id_seq := activities_id_seq q |} |}, row).

Definition insert_groupMembers (s : state) (v : InsertGroupMember)
  : result (state * GroupMember) :=
  let q := sequences s in
  memberAddress ← varchar 42 (im_memberAddress v);
  let row := {|
    member_id := group_members_id_seq q;
    member_groupId := im_groupId v;
    member_memberAddress := memberAddress |} in
  if existsb (λ m, member_id m =? member_id row) (groupMembers s)
  then Throw UniqueViolation
  else Ok ({|
    users := users s; groups := groups s;
    groupMembers := groupMembers s ++ [row]; loans := loans s;
    guarantors := guarantors s; proposals := proposals s; votes := votes s;
    activities := activities s;
    sequences := {|
      users_id_seq := users_id_seq q; groups_id_seq := groups_id_seq q;
      group_members_id_seq := group_members_id_seq q + 1;
      loans_id_seq := loans_id_seq q; guarantors_id_seq := guarantors_id_seq q;
      proposals_id_seq := proposals_id_seq q; votes_id_seq := votes_id_seq q;
      activities_id_seq := activities_id_seq q |} |}, row).

Definition insert_loans (s : state) (now : Z) (v : InsertLoan)
  : result (state * Loan) :=
  let q := sequences s in
  borrowerAddress ← varchar 42 (il_borrowerAddress v);
  let row := {|
    loan_id := loans_id_seq q;
    loan_borrowerAddress := borrowerAddress;
    loan_amount := il_amount v;
    loan_dueDate := il_dueDate v;
    loan_repaid := column_default false (il_repaid v);
    loan_approved := column_default false (il_approved v);
    loan_defaulted := column_default false (il_defaulted v);
    loan_createdAt := Some now |} in
  if existsb (λ l, loan_id l =? loan_id row) (loans s)
  then Throw UniqueViolation
  else Ok ({|
    users := users s; groups := groups s;
    groupMembers := groupMembers s; loans := loans s ++ [row];
    guarantors := guarantors s; proposals := proposals s; votes := votes s;
    activities := activities s;
    sequences := {|
      users_id_seq := users_id_seq q; groups_id_seq := groups_id_seq q;
      group_members_id_seq := group_members_id_seq q;
      loans_id_seq := loans_id_seq q + 1; guarantors_id_seq := guarantors_id_seq q;
      proposals_id_seq := proposals_id_seq q; votes_id_seq := votes_id_seq q;
      activities_id_seq := activities_id_seq q |} |}, row).

Definition insert_guarantors (s : state) (v : InsertGuarantor)
  : result (state * Guarantor) :=
  let q := sequences s in
  guarantorAddress ← varchar 42 (igu_guarantorAddress v);
  let row := {|
    guarantor_id := guarantors_id_seq q;
    guarantor_loanId := igu_loanId v;
    guarantor_guarantorAddress := guarantorAddress;
    guarantor_approved := column_default false (igu_approved v) |} in
  if existsb (λ g, guarantor_id g =? guarantor_id row) (guarantors s)
  then Throw UniqueViolation
  else Ok ({|
    users := users s; groups := groups s;
    groupMembers := groupMembers s; loans := loans s;
    guarantors := guarantors s ++ [row]; proposals := proposals s;
    votes := votes s; activities := activities s;
    sequences := {|
      users_id_seq := users_id_seq q; groups_id_seq := groups_id_seq q;
      group_members_id_seq := group_members_id_seq q;
      loans_id_seq := loans_id_seq q; guarantors_id_seq := guarantors_id_seq q + 1;
      proposals_id_seq := proposals_id_seq q; votes_id_seq := votes_id_seq q;
      activities_id_seq := activities_id_seq q |} |}, row).

(** [createProposal] gives [votesYes], [votesNo] and [executed] explicitly;
    [created_at] takes its default. *)
Definition insert_proposals (s : state) (now : Z) (v : InsertProposal)
  : result (state * Proposal) :=
  let q := sequences s in
  let row := {|
    proposal_id := proposals_id_seq q;
    proposal_groupId := ip_groupId v;
    proposal_description := ip_description v;
    proposal_votesYes := Some 0;
    proposal_votesNo := Some 0;
    proposal_deadline := ip_deadline v;
    proposal_executed := Some false;
    proposal_createdAt := Some now |} in
  if existsb (λ p, proposal_id p =? proposal_id row) (proposals s)
  then Throw UniqueViolation
  else Ok ({|
    users := users s; groups := groups s;
    groupMembers := groupMembers s; loans := loans s;
    guarantors := guarantors s; proposals := proposals s ++ [row];
    votes := votes s; activities := activities s;
    sequences := {|
      users_id_seq := users_id_seq q; groups_id_seq := groups_id_seq q;
      group_members_id_seq := group_members_id_seq q;
      loans_id_seq := loans_id_seq q; guarantors_id_seq := guarantors_id_seq q;
      proposals_id_seq := proposals_id_seq q + 1; votes_id_seq := votes_id_seq q;
      activities_id_seq := activities_id_seq q |} |}, row).

Definition insert_votes (s : state) (v : InsertVote) : result (state * Vote) :=
  let q := sequences s in
  voterAddress ← varchar 42 (iv_voterAddress v);
  let row := {|
    vote_id := votes_id_seq q;
    vote_proposalId := iv_proposalId v;
    vote_voterAddress := voterAddress;
    vote_vote := iv_vote v |} in
  if existsb (λ x, vote_id x =? vote_id row) (votes s)
  then Throw UniqueViolation
  else Ok ({|
    users := users s; groups := groups s;
    groupMembers := groupMembers s; loans := loans s;
    guarantors := guarantors s; proposals := proposals s;
    votes := votes s ++ [row]; activities := activities s;
    sequences := {|
      users_id_seq := users_id_seq q; groups_id_seq := groups_id_seq q;
      group_members_id_seq := group_members_id_seq q;
      loans_id_seq := loans_id_seq q; guarantors_id_seq := guarantors_id_seq q;
      proposals_id_seq := proposals_id_seq q; votes_id_seq := votes_id_seq q + 1;
      activities_id_seq := activities_id_seq q |} |}, row).

Definition insert_activities (s : state) (now : Z) (v : InsertActivity)
  : result (state * Activity) :=
  let q := sequences s in
  userAddress ← varchar 42 (ia_userAddress v);
  activityType ← varchar 50 (ia_activityType v);
  let row := {|
    activity_id := activities_id_seq q;
    activity_groupId := ia_groupId v;
    activity_userAddress := userAddress;
    activity_activityType := activityType;
    activity_description := ia_description v;
    activity_timestamp := now |} in
  if existsb (λ a, activity_id a =? activity_id row) (activities s)
  then Throw UniqueViolation
  else Ok ({|
    users := users s; groups := groups s;
    groupMembers := groupMembers s; loans := loans s;
    guarantors := guarantors s; proposals := proposals s;
    votes := votes s; activities := activities s ++ [row];
    sequences := {|
      users_id_seq := users_id_seq q; groups_id_seq := groups_id_seq q;
      group_members_id_seq := group_members_id_seq q;
      loans_id_seq := loans_id_seq q; guarantors_id_seq := guarantors_id_seq q;
      proposals_id_seq := proposals_id_seq q; votes_id_seq := votes_id_seq q;
      activities_id_seq := activities_id_seq q + 1 |} |}, row).

(** *** The raw SQL of [addVote]

    [pgTable] names the columns of [proposals]: the key [votesYes] of the
    row type is the column [votes_yes].  The template [sql`...`] is sent as
    written, and a quoted identifier in it is looked up among these names as
    it is spelled. *)
Definition proposals_columns : list string :=
  ["id"; "group_id"; "description"; "votes_yes"; "votes_no"; "deadline";
   "executed"; "created_at"]%string.

(** The columns of type [integer] among them, and their value in a row. *)
Definition proposals_integer_columns : list string :=
  ["id"; "group_id"; "votes_yes"; "votes_no"]%string.

Definition proposals_integer (name : string) (p : Proposal) : option Z :=
  if String.eqb name "id" then Some (proposal_id p)
  else if String.eqb name "group_id" then Some (proposal_groupId p)
  else if String.eqb name "votes_yes" then proposal_votesYes p
  else if String.eqb name "votes_no" then proposal_votesNo p
  else None.

(** The keys that [addVote] sets. *)
Inductive TallyKey := votesYes | votesNo.

Definition set_tally (k : TallyKey) (x : option Z) (p : Proposal) : Proposal :=
  match k with
  | votesYes => {|
      proposal_id := proposal_id p; proposal_groupId := proposal_groupId p;
      proposal_description := proposal_description p;
      proposal_votesYes := x; proposal_votesNo := proposal_votesNo p;
      proposal_deadline := proposal_deadline p;
      proposal_executed := proposal_executed p;
      proposal_createdAt := proposal_createdAt p |}
  | votesNo => {|
      proposal_id := proposal_id p; proposal_groupId := proposal_groupId p;
      proposal_description := proposal_description p;
      proposal_votesYes := proposal_votesYes p; proposal_votesNo := x;
      proposal_deadline := proposal_deadline p;
      proposal_executed := proposal_executed p;
      proposal_createdAt := proposal_createdAt p |}
  end.

Definition set_proposals (x : list Proposal) (s : state) : state := {|
  users := users s; groups := groups s; groupMembers := groupMembers s;
  loans := loans s; guarantors := guarantors s; proposals := x;
  votes := votes s; activities := activities s; sequences := sequences s |}.

(** [update(proposals).set({ key: sql`"column" + 1` }).where(eq(proposals.id, id))].
    The statement is analysed before any row is visited: a name that is no
    column of the table, or a column that [+ 1] does not apply to, is an
    error whether or not a row matches.  [NULL + 1] is [NULL]. *)
Definition update_proposals_increment (s : state) (key : TallyKey)
  (column : string) (id : Z) : result state :=
  if negb (bool_decide (column ∈ proposals_columns))
  then Throw (UndefinedColumn column)
  else if negb (bool_decide (column ∈ proposals_integer_columns))
  then Throw UndefinedOperator
  else
    Ok (set_proposals
          (map (λ p, if proposal_id p =? id
                     then set_tally key ((λ n, n + 1) <$> proposals_integer column p) p
                     else p)
               (proposals s)) s).

(** *** User operations *)

Definition getUser (s : state) (address : string) : option User :=
  List.find (λ u, String.eqb (user_address u) (toLowerCase address)) (users s).

Definition createUser (s : state) (now : Z) (userData : InsertUser)
  : result (state * User) :=
  (* Ensure address is lowercase *)
  let data := {|
    iu_address := toLowerCase (iu_address userData);
    iu_groupId := iu_groupId userData;
    iu_totalDeposits := iu_totalDeposits userData;
    iu_creditScore := iu_creditScore userData;
    iu_lastDepositTime := iu_lastDepositTime userData;
    iu_registered := iu_registered userData;
    iu_isDefaulted := iu_isDefaulted userData |} in
  insert_users s now data.

(** *** Group operations *)

Definition getGroup (s : state) (id : Z) : option Group :=
  List.find (λ g, group_id g =? id) (groups s).

Definition getGroups (s : state) : list Group := groups s.

Definition createGroup (s : state) (groupData : InsertGroup)
  : result (state * Group) :=
  transaction s (λ tx,
    '(tx, group) ← insert_groups tx groupData;
    (* Add admin as the first member *)
    '(tx, _) ← insert_groupMembers tx {|
        im_groupId := group_id group;
        im_memberAddress := toLowerCase (ig_admin groupData) |};
    Ok (tx, group)).

Definition addGroupMember (s : state) (memberData : InsertGroupMember)
  : result (state * GroupMember) :=
  insert_groupMembers s {|
    im_groupId := im_groupId memberData;
    im_memberAddress := toLowerCase (im_memberAddress memberData) |}.

Definition isGroupMember (s : state) (groupId : Z) (address : string) : bool :=
  existsb
    (λ m, (member_groupId m =? groupId)
          && String.eqb (member_memberAddress m) (toLowerCase address))
    (groupMembers s).

(** *** Loan operations *)

Definition getLoan (s : state) (id : Z) : option Loan :=
  List.find (λ l, loan_id l =? id) (loans s).

Definition getUserLoans (s : state) (address : string) : list Loan :=
  List.filter (λ l, String.eqb (loan_borrowerAddress l) (toLowerCase address))
    (loans s).

Definition createLoan (s : state) (now : Z) (loanData : InsertLoan)
  : result (state * Loan) :=
  insert_loans s now {|
    il_borrowerAddress := toLowerCase (il_borrowerAddress loanData);
    il_amount := il_amount loanData;
    il_dueDate := il_dueDate loanData;
    il_repaid := il_repaid loanData;
    il_approved := il_approved loanData;
    il_defaulted := il_defaulted loanData |}.

(** *** Guarantor operations *)

Definition getLoanGuarantors (s : state) (loanId : Z) : list Guarantor :=
  List.filter (λ g, guarantor_loanId g =? loanId) (guarantors s).

Definition addGuarantor (s : state) (guarantorData : InsertGuarantor)
  : result (state * Guarantor) :=
  insert_guarantors s {|
    igu_loanId := igu_loanId guarantorData;
    igu_guarantorAddress := toLowerCase (igu_guarantorAddress guarantorData);
    igu_approved := igu_approved guarantorData |}.

(** *** Proposal operations *)

Definition getProposal (s : state) (id : Z) : option Proposal :=
  List.find (λ p, proposal_id p =? id) (proposals s).

Definition getGroupProposals (s : state) (groupId : Z) : list Proposal :=
  List.filter (λ p, proposal_groupId p =? groupId) (proposals s).

Definition createProposal (s : state) (now : Z) (proposalData : InsertProposal)
  : result (state * Proposal) :=
  insert_proposals s now proposalData.

(** *** Vote operations *)

Definition getVotes (s : state) (proposalId : Z) : list Vote :=
  List.filter (λ v, vote_proposalId v =? proposalId) (votes s).

Definition addVote (s : state) (voteData : InsertVote) : result (state * Vote) :=
  transaction s (λ tx,
    (* Add the vote with lowercase address *)
    '(tx, vote) ← insert_votes tx {|
        iv_proposalId := iv_proposalId voteData;
        iv_voterAddress := toLowerCase (iv_voterAddress voteData);
        iv_vote := iv_vote voteData |};
    (* Update proposal vote counts *)
    tx ← (if iv_vote voteData
          then update_proposals_increment tx votesYes "votesYes"
                 (iv_proposalId voteData)
          else update_proposals_increment tx votesNo "votesNo"
                 (iv_proposalId voteData));
    Ok (tx, vote)).

Definition hasVoted (s : state) (proposalId : Z) (address : string) : bool :=
  existsb
    (λ v, (vote_proposalId v =? proposalId)
          && String.eqb (vote_voterAddress v) (toLowerCase address))
    (votes s).

(** *** Activity operations *)

(** [ORDER BY timestamp DESC LIMIT limit].  SQL leaves the order of rows
    with equal timestamps open; the model keeps them in insertion order.
    The query builder leaves the [LIMIT] clause out when the limit is
    negative, and the query then returns every row of the group. *)
Definition getGroupActivities (s : state) (groupId : Z) (limit : option Z)
  : result (list Activity) :=
  let limit := default 10 limit in
  let rows := List.filter (λ a, activity_groupId a =? groupId) (activities s) in
  if limit <? 0 then Ok (sort_desc rows)
  else Ok (take (Z.to_nat limit) (sort_desc rows)).

Definition addActivity (s : state) (now : Z) (activityData : InsertActivity)
  : result (state * Activity) :=
  insert_activities s now {|
    ia_groupId := ia_groupId activityData;
    ia_userAddress := toLowerCase (ia_userAddress activityData);
    ia_activityType := ia_activityType activityData;
    ia_description := ia_description activityData |}.

(** *** The join queries

    An inner join yields one row for each pair of rows that satisfies the
    join condition.  SQL leaves the order of the pairs open; the model
    lists them in table order, the member rows outermost. *)

(** [select({ user: users }).from(groupMembers)
      .innerJoin(users, eq(groupMembers.memberAddress, users.address))
      .where(eq(groupMembers.groupId, groupId))], then [row.user] of each. *)
Definition getGroupMembers (s : state) (groupId : Z) : list User :=
  flat_map
    (λ m, List.filter
            (λ u, String.eqb (member_memberAddress m) (user_address u)) (users s))
    (List.filter (λ m, member_groupId m =? groupId) (groupMembers s)).

(** [select({ group: groups }).from(groupMembers)
      .innerJoin(groups, eq(groupMembers.groupId, groups.id))
      .where(eq(groupMembers.memberAddress, address.toLowerCase()))];
    the group of the first row, if there is one. *)
Definition getUserGroup (s : state) (address : string) : option Group :=
  head
    (flat_map
       (λ m, List.filter (λ g, member_groupId m =? group_id g) (groups s))
       (List.filter
          (λ m, String.eqb (member_memberAddress m) (toLowerCase address))
          (groupMembers s))).

(** *** [updateGuarantor] *)

Definition set_guarantors (x : list Guarantor) (s : state) : state := {|
  users := users s; groups := groups s; groupMembers := groupMembers s;
  loans := loans s; guarantors := x; proposals := proposals s;
  votes := votes s; activities := activities s; sequences := sequences s |}.

(** [set({ approved })] on one row. *)
Definition set_approved (approved : bool) (g : Guarantor) : Guarantor := {|
  guarantor_id := guarantor_id g;
  guarantor_loanId := guarantor_loanId g;
  guarantor_guarantorAddress := guarantor_guarantorAddress g;
  guarantor_approved := Some approved |}.

(** [update(guarantors).set({ approved }).where(and(eq(loanId), eq(guarantorAddress,
    address.toLowerCase()))).returning()]: every row that matches is
    updated; the first of them is returned, [undefined] when none matches.
    Where PostgreSQL puts an updated row among the others is not fixed, and
    no query here has an [ORDER BY]: the model leaves each row in its place,
    and what is stated of the rows after an update is stated up to their
    order. *)
Definition updateGuarantor (s : state) (loanId : Z) (address : string)
  (approved : bool) : result (state * option Guarantor) :=
  let hit g :=
    (guarantor_loanId g =? loanId)
    && String.eqb (guarantor_guarantorAddress g) (toLowerCase address) in
  let rows := map (λ g, if hit g then set_approved approved g else g) (guarantors s) in
  Ok (set_guarantors rows s,
      head (map (set_approved approved) (List.filter hit (guarantors s)))).

End DatabaseStorage.

(** ** The [IStorage] operations the route handlers below call *)

Class IStorage (Store : Type) := {
  getUser : Store → string → option User;
  createUser : Store → Z → InsertUser → result (Store * User);
  getProposal : Store → Z → option Proposal;
  hasVoted : Store → Z → string → bool;
  addVote : Store → InsertVote → result (Store * Vote);
  addActivity : Store → Z → InsertActivity → result (Store * Activity) }.

#[global] Instance MemStorage_IStorage : IStorage MemStorage.state := {|
  getUser := MemStorage.getUser;
  createUser := λ s _ d, Ok (MemStorage.createUser s d);
  getProposal := MemStorage.getProposal;
  hasVoted := MemStorage.hasVoted;
  addVote := λ s d, Ok (MemStorage.addVote s d);
  addActivity := λ s now d, Ok (MemStorage.addActivity s now d) |}.

(** [export const storage = new DatabaseStorage()]: the instance the routes
    are wired to. *)
#[global] Instance DatabaseStorage_IStorage : IStorage DatabaseStorage.state := {|
  getUser := DatabaseStorage.getUser;
  createUser := DatabaseStorage.createUser;
  getProposal := DatabaseStorage.getProposal;
  hasVoted := DatabaseStorage.hasVoted;
  addVote := DatabaseStorage.addVote;
  addActivity := DatabaseStorage.addActivity |}.

(** ** Route handlers *)

Inductive Json :=
| ZodMessage                 (* { message: validation.error } *)
| Message (message : string) (* { message } *)
| UserJson (user : User)
| VoteJson (vote : Vote).

Record Response := {
  status : Z;
  json : Json }.

(** What [POST /api/proposals/:id/votes] reads of a request:
    [parseInt(req.params.id)] ([None] is [NaN]), [req.body.voterAddress]
    and [req.body.vote] ([None]: missing, or not of the column's type). *)
Record VoteRequest := {
  params_id : option Z;
  body_voterAddress : option string;
  body_vote : option bool }.

(** The double quote, for the activity descriptions. *)
Definition dquote : string := String (ascii_of_nat 34) EmptyString.

Section Routes.
Context {Store : Type} `{IStorage Store}.

(** [createInsertSchema] derives the schemas from the tables: a key must be
    present with the type of its column.  What the derived schema checks
    beyond that (bounds such as the width of a [varchar]) is a parameter. *)
Variable insertUserSchema : InsertUser → bool.
Variable insertVoteSchema : InsertVote → bool.

(** [validateRequest(insertUserSchema, req.body)]; [body] is [None] when a
    key is missing or ill-typed. *)
Definition validateUser (body : option InsertUser) : option InsertUser :=
  match body with
  | Some data => if insertUserSchema data then Some data else None
  | None => None
  end.

Definition validateVote (req : VoteRequest) : option InsertVote :=
  match params_id req, body_voterAddress req, body_vote req with
  | Some proposalId, Some voterAddress, Some vote =>
      let data := {|
        iv_proposalId := proposalId;
        iv_voterAddress := voterAddress;
        iv_vote := vote |} in
      if insertVoteSchema data then Some data else None
  | _, _, _ => None
  end.

(** [app.post("/api/users", ...)] *)
Definition postUsers (s : Store) (now : Z) (body : option InsertUser) : Store * Response :=
  match validateUser body with
  | None => (s, {| status := 400; json := ZodMessage |})
  | Some data =>
      match getUser s (iu_address data) with
      | Some existingUser => (s, {| status := 200; json := UserJson existingUser |})
      | None =>
          match createUser s now data with
          | Ok (s, user) => (s, {| status := 201; json := UserJson user |})
          | Throw _ => (s, {| status := 500; json := Message "Failed to create user" |})
          end
      end
  end.

(** [app.post("/api/proposals/:id/votes", ...)].  After a successful
    validation [parseInt(req.params.id)] is the validated [proposalId]. *)
Definition postVotes (s : Store) (now : Z) (req : VoteRequest) : Store * Response :=
  match validateVote req with
  | None => (s, {| status := 400; json := ZodMessage |})
  | Some data =>
      match getProposal s (iv_proposalId data) with
      | None => (s, {| status := 404; json := Message "Proposal not found" |})
      | Some proposal =>
          if hasVoted s (proposal_id proposal) (iv_voterAddress data)
          then (s, {| status := 400; json := Message "Already voted on this proposal" |})
          else
            match addVote s data with
            | Throw _ => (s, {| status := 500; json := Message "Failed to add vote" |})
            | Ok (s, vote) =>
                (* Add activity for voting *)
                match addActivity s now {|
                    ia_groupId := proposal_groupId proposal;
                    ia_userAddress := iv_voterAddress data;
                    ia_activityType := "vote_cast";
                    ia_description :=
                      iv_voterAddress data +:+ " voted "
                      +:+ (if iv_vote data then "Yes" else "No")
                      +:+ " on proposal: " +:+ dquote
                      +:+ proposal_description proposal +:+ dquote |}
                with
                | Throw _ => (s, {| status := 500; json := Message "Failed to add vote" |})
                | Ok (s, _) => (s, {| status := 201; json := VoteJson vote |})
                end
            end
      end
  end.

End Routes.

(** ** Calls of the [IStorage] interface

    One constructor for each of the 27 methods that [IStorage] declares;
    none of them deletes.  [run] is the state of the in-memory store after
    the call. *)
Inductive call :=
| GetUser (address : string)
| CreateUser (user : InsertUser)
| UpdateUser (address : string) (data : PartialUser)
| GetGroup (id : Z)
| GetGroups
| CreateGroup (group : InsertGroup)
| UpdateGroup (id : Z) (data : PartialGroup)
| GetGroupMembers (groupId : Z)
| AddGroupMember (member : InsertGroupMember)
| IsGroupMember (groupId : Z) (address : string)
| GetUserGroup (address : string)
| GetLoan (id : Z)
| GetUserLoans (address : string)
| CreateLoan (now : Z) (loan : InsertLoan)
| UpdateLoan (id : Z) (data : PartialLoan)
| GetLoanGuarantors (loanId : Z)
| AddGuarantor (guarantor : InsertGuarantor)
| UpdateGuarantor (loanId : Z) (address : string) (approved : bool)
| GetProposal (id : Z)
| GetGroupProposals (groupId : Z)
| CreateProposal (now : Z) (proposal : InsertProposal)
| UpdateProposal (id : Z) (data : PartialProposal)
| GetVotes (proposalId : Z)
| AddVote (vote : InsertVote)
| HasVoted (proposalId : Z) (address : string)
| GetGroupActivities (groupId : Z) (limit : option Z)
| AddActivity (now : Z) (activity : InsertActivity).

Definition run (c : call) (s : MemStorage.state) : MemStorage.state :=
  match c with
  | CreateUser user => (MemStorage.createUser s user).1
  | UpdateUser address data => (MemStorage.updateUser s address data).1
  | CreateGroup group => (MemStorage.createGroup s group).1
  | UpdateGroup id data => (MemStorage.updateGroup s id data).1
  | AddGroupMember member => (MemStorage.addGroupMember s member).1
  | CreateLoan now loan => (MemStorage.createLoan s now loan).1
  | UpdateLoan id data => (MemStorage.updateLoan s id data).1
  | AddGuarantor guarantor => (MemStorage.addGuarantor s guarantor).1
  | UpdateGuarantor loanId address approved =>
      (MemStorage.updateGuarantor s loanId address approved).1
  | CreateProposal now proposal => (MemStorage.createProposal s now proposal).1
  | UpdateProposal id data => (MemStorage.updateProposal s id data).1
  | AddVote vote => (MemStorage.addVote s vote).1
  | AddActivity now activity => (MemStorage.addActivity s now activity).1
  | GetUser _ | GetGroup _ | GetGroups | GetGroupMembers _ | IsGroupMember _ _
  | GetUserGroup _ | GetLoan _ | GetUserLoans _ | GetLoanGuarantors _
  | GetProposal _ | GetGroupProposals _ | GetVotes _ | HasVoted _ _
  | GetGroupActivities _ _ => s
  end.

(** ** Stored addresses in lower case

    Every insert of [DatabaseStorage] lower-cases the address it stores, and
    its reads compare the stored address with the lower-cased argument.
    [votes_lowercase] says of a database that its vote rows hold
    lower-case addresses, the form in which [addVote] inserts them. *)
Definition votes_lowercase (s : DatabaseStorage.state) : Prop :=
  Forall (λ v, vote_voterAddress v = toLowerCase (vote_voterAddress v))
    (DatabaseStorage.votes s).

(** ** States the in-memory store can be in

    [reachable s]: [s] is the store after some calls of the interface on a
    new [MemStorage]. *)
Inductive reachable : MemStorage.state → Prop :=
| reachable_new : reachable MemStorage.new
| reachable_run c s : reachable s → reachable (run c s).

(** Every key and every identifier that the store has handed out is below
    the counter it came from, and [groupMembers] holds each group id once. *)
Record fresh_ids (s : MemStorage.state) : Prop := {
  fresh_groups :
    ∀ id, is_Some (OMap.get id (MemStorage.groups s)) →
          id < MemStorage.cur_group (MemStorage.currentIds s);
  fresh_loans :
    ∀ id, is_Some (MemStorage.loans s !! id) →
          id < MemStorage.cur_loan (MemStorage.currentIds s);
  fresh_proposals :
    ∀ id, is_Some (MemStorage.proposals s !! id) →
          id < MemStorage.cur_proposal (MemStorage.currentIds s);
  fresh_loansByBorrower :
    ∀ a ids, MemStorage.loansByBorrower s !! a = Some ids →
             Forall (λ id, id < MemStorage.cur_loan (MemStorage.currentIds s)) ids;
  fresh_proposalsByGroup :
    ∀ g ids, MemStorage.proposalsByGroup s !! g = Some ids →
             Forall (λ id, id < MemStorage.cur_proposal (MemStorage.currentIds s)) ids;
  fresh_members :
    ∀ g ms, OMap.get g (MemStorage.groupMembers s) = Some ms →
            Forall (λ m, member_id m
                         < MemStorage.cur_groupMember (MemStorage.currentIds s)) ms;
  fresh_guarantors :
    ∀ l gs, MemStorage.guarantors s !! l = Some gs →
            Forall (λ g, guarantor_id g
                         < MemStorage.cur_guarantor (MemStorage.currentIds s)) gs;
  fresh_votes :
    ∀ p vs, MemStorage.votes s !! p = Some vs →
            Forall (λ v, vote_id v < MemStorage.cur_vote (MemStorage.currentIds s)) vs;
  fresh_activities :
    ∀ g acts, MemStorage.activities s !! g = Some acts →
              Forall (λ a, activity_id a
                           < MemStorage.cur_activity (MemStorage.currentIds s)) acts;
  members_keys_once : NoDup (MemStorage.groupMembers s).*1 }.

(** The same for the relational store: every row id is below the sequence
    of its table, as it is in a database whose ids all come from the
    sequences. *)
Record db_fresh_ids (s : DatabaseStorage.state) : Prop := {
  db_fresh_users :
    Forall (λ r, user_id r < DatabaseStorage.users_id_seq (DatabaseStorage.sequences s))
      (DatabaseStorage.users s);
  db_fresh_groups :
    Forall (λ r, group_id r < DatabaseStorage.groups_id_seq (DatabaseStorage.sequences s))
      (DatabaseStorage.groups s);
  db_fresh_groupMembers :
    Forall (λ r, member_id r
                 < DatabaseStorage.group_members_id_seq (DatabaseStorage.sequences s))
      (DatabaseStorage.groupMembers s);
  db_fresh_loans :
    Forall (λ r, loan_id r < DatabaseStorage.loans_id_seq (DatabaseStorage.sequences s))
      (DatabaseStorage.loans s);
  db_fresh_guarantors :
    Forall (λ r, guarantor_id r
                 < DatabaseStorage.guarantors_id_seq (DatabaseStorage.sequences s))
      (DatabaseStorage.guarantors s);
  db_fresh_proposals :
    Forall (λ r, proposal_id r
                 < DatabaseStorage.proposals_id_seq (DatabaseStorage.sequences s))
      (DatabaseStorage.proposals s);
  db_fresh_votes :
    Forall (λ r, vote_id r < DatabaseStorage.votes_id_seq (DatabaseStorage.sequences s))
      (DatabaseStorage.votes s);
  db_fresh_activities :
    Forall (λ r, activity_id r
                 < DatabaseStorage.activities_id_seq (DatabaseStorage.sequences s))
      (DatabaseStorage.activities s) }.

(** ** The rest of [IStorage] that the routes below call *)

Class IStorageRest (Store : Type) := {
  getGroup : Store → Z → option Group;
  createGroup : Store → InsertGroup → result (Store * Group);
  isGroupMember : Store → Z → string → bool;
  addGroupMember : Store → InsertGroupMember → result (Store * GroupMember);
  getLoan : Store → Z → option Loan;
  createLoan : Store → Z → InsertLoan → result (Store * Loan);
  getLoanGuarantors : Store → Z → list Guarantor;
  addGuarantor : Store → InsertGuarantor → result (Store * Guarantor);
  updateGuarantor : Store → Z → string → bool → result (Store * option Guarantor);
  getGroupActivities : Store → Z → option Z → result (list Activity) }.

#[global] Instance MemStorage_IStorageRest : IStorageRest MemStorage.state := {|
  getGroup := MemStorage.getGroup;
  createGroup := λ s d, Ok (MemStorage.createGroup s d);
  isGroupMember := MemStorage.isGroupMember;
  addGroupMember := λ s d, Ok (MemStorage.addGroupMember s d);
  getLoan := MemStorage.getLoan;
  createLoan := λ s now d, Ok (MemStorage.createLoan s now d);
  getLoanGuarantors := MemStorage.getLoanGuarantors;
  addGuarantor := λ s d, Ok (MemStorage.addGuarantor s d);
  updateGuarantor := λ s l a b, Ok (MemStorage.updateGuarantor s l a b);
  getGroupActivities := λ s g limit, Ok (MemStorage.getGroupActivities s g limit) |}.

#[global] Instance DatabaseStorage_IStorageRest : IStorageRest DatabaseStorage.state := {|
  getGroup := DatabaseStorage.getGroup;
  createGroup := DatabaseStorage.createGroup;
  isGroupMember := DatabaseStorage.isGroupMember;
  addGroupMember := DatabaseStorage.addGroupMember;
  getLoan := DatabaseStorage.getLoan;
  createLoan := DatabaseStorage.createLoan;
  getLoanGuarantors := DatabaseStorage.getLoanGuarantors;
  addGuarantor := DatabaseStorage.addGuarantor;
  updateGuarantor := DatabaseStorage.updateGuarantor;
  getGroupActivities := DatabaseStorage.getGroupActivities |}.

(** [updateUser], which [POST /api/groups/:id/members] calls; of the two
    stores only the in-memory one has it embedded. *)
Class IStorageUpdateUser (Store : Type) := {
  updateUser : Store → string → PartialUser → result (Store * option User) }.

#[global] Instance MemStorage_IStorageUpdateUser : IStorageUpdateUser MemStorage.state := {|
  updateUser := λ s a d, Ok (MemStorage.updateUser s a d) |}.

(** ** More route handlers *)

(** What a handler sends: [res.status(status).json(body)] with a record, or
    [{ message }]; [Refused 400 None] carries the text of a validation
    error. *)
Inductive Reply (A : Type) :=
| Sent (status : Z) (body : A)
| Refused (status : Z) (message : option string).
Arguments Sent {A} status body.
Arguments Refused {A} status message.

(** [user && user.groupId]: the group id when there is a user whose
    [groupId] is neither [null] nor [0]. *)
Definition truthy_groupId (user : option User) : option Z :=
  match user with
  | Some u =>
      match user_groupId u with
      | Some g => if g =? 0 then None else Some g
      | None => None
      end
  | None => None
  end.

(** The payload [{ groupId, registered: true }]. *)
Definition joined_payload (groupId : Z) : PartialUser := {|
  pu_id := None; pu_address := None; pu_groupId := Some (Some groupId);
  pu_totalDeposits := None; pu_creditScore := None; pu_lastDepositTime := None;
  pu_registered := Some (Some true); pu_isDefaulted := None |}.

(** What [POST /api/groups/:id/members] reads of a request:
    [parseInt(req.params.id)] and [req.body.memberAddress]. *)
Record MemberRequest := {
  member_params_id : option Z;
  body_memberAddress : option string }.

Section MoreRoutes.
Context {Store : Type} `{IStorage Store} `{IStorageRest Store}.

Variable insertGroupSchema : InsertGroup → bool.
Variable insertGroupMemberSchema : InsertGroupMember → bool.
Variable insertLoanSchema : InsertLoan → bool.

(** [app.get("/api/users/:address", ...)] *)
Definition getUsersAddress (s : Store) (address : string) : Reply User :=
  match getUser s address with
  | None => Refused 404 (Some "User not found")
  | Some user => Sent 200 user
  end.




Definition validateMember (req : MemberRequest) : option InsertGroupMember :=
  match member_params_id req, body_memberAddress req with
  | Some groupId, Some memberAddress =>
      let data := {| im_groupId := groupId; im_memberAddress := memberAddress |} in
      if insertGroupMemberSchema data then Some data else None
  | _, _ => None
  end.

(** [app.post("/api/groups/:id/members", ...)].  After a successful
    validation [parseInt(req.params.id)] is the validated [groupId]. *)
Definition postMembers `{IStorageUpdateUser Store} (s : Store) (now : Z)
  (req : MemberRequest) : Store * Reply GroupMember :=
  match validateMember req with
  | None => (s, Refused 400 None)
  | Some data =>
      match getGroup s (im_groupId data) with
      | None => (s, Refused 404 (Some "Group not found"))
      | Some group =>
          if isGroupMember s (group_id group) (im_memberAddress data)
          then (s, Refused 400 (Some "Already a member of this group"))
          else
            match addGroupMember s data with
            | Throw _ => (s, Refused 500 (Some "Failed to add group member"))
            | Ok (s, member) =>
                (* Update user with group info *)
                match updateUser s (im_memberAddress data)
                        (joined_payload (group_id group)) with
                | Throw _ => (s, Refused 500 (Some "Failed to add group member"))
                | Ok (s, _) =>
                    (* Add activity for joining group *)
                    match addActivity s now {|
                        ia_groupId := group_id group;
                        ia_userAddress := im_memberAddress data;
                        ia_activityType := "join_group";
                        ia_description :=
                          im_memberAddress data +:+ " joined the group" |}
                    with
                    | Throw _ => (s, Refused 500 (Some "Failed to add group member"))
                    | Ok (s, _) => (s, Sent 201 member)
                    end
                end
            end
      end
  end.

(** The loop of [POST /api/loans] over [req.body.guarantors]: the store
    reached, and whether every [addGuarantor] resolved. *)
Fixpoint addGuarantors (s : Store) (loanId : Z) (guarantors : list string)
  : Store * bool :=
  match guarantors with
  | [] => (s, true)
  | guarantorAddress :: rest =>
      match addGuarantor s {|
          igu_loanId := loanId;
          igu_guarantorAddress := guarantorAddress;
          igu_approved := Some (Some false) |}
      with
      | Ok (s, _) => addGuarantors s loanId rest
      | Throw _ => (s, false)
      end
  end.

(** [app.post("/api/loans", ...)]; [guarantors] is [req.body.guarantors]
    when that is an array (of addresses), [None] otherwise. *)
Definition postLoans (s : Store) (now : Z) (body : option InsertLoan)
  (guarantors : option (list string)) : Store * Reply Loan :=
  match body with
  | Some data =>
      if insertLoanSchema data then
        match createLoan s now data with
        | Throw _ => (s, Refused 500 (Some "Failed to create loan"))
        | Ok (s, loan) =>
            (* Add guarantors if provided *)
            match addGuarantors s (loan_id loan) (default [] guarantors) with
            | (s, false) => (s, Refused 500 (Some "Failed to create loan"))
            | (s, true) =>
                (* Add activity for loan request *)
                match truthy_groupId (getUser s (il_borrowerAddress data)) with
                | Some groupId =>
                    match addActivity s now {|
                        ia_groupId := groupId;
                        ia_userAddress := il_borrowerAddress data;
                        ia_activityType := "loan_request";
                        ia_description :=
                          il_borrowerAddress data +:+ " requested a loan of "
                          +:+ pretty (il_amount data) +:+ " USDC" |}
                    with
                    | Throw _ => (s, Refused 500 (Some "Failed to create loan"))
                    | Ok (s, _) => (s, Sent 201 loan)
                    end
                | None => (s, Sent 201 loan)
                end
            end
        end
      else (s, Refused 400 None)
  | None => (s, Refused 400 None)
  end.

(** [app.get("/api/loans/:id", ...)]: the loan with its guarantors. *)
Definition getLoansId (s : Store) (id : Z) : Reply (Loan * list Guarantor) :=
  match getLoan s id with
  | None => Refused 404 (Some "Loan not found")
  | Some loan => Sent 200 (loan, getLoanGuarantors s (loan_id loan))
  end.


End MoreRoutes.

(** ** Sample requests *)

(** The body [{ address }]. *)
Definition user_body (address : string) : InsertUser := {|
  iu_address := address; iu_groupId := None; iu_totalDeposits := None;
  iu_creditScore := None; iu_lastDepositTime := None;
  iu_registered := None; iu_isDefaulted := None |}.

(** The bodies [{ approved: true }], [{ name }] and [{ executed: true }]. *)
Definition loan_patch_approved : PartialLoan := {|
  pl_id := None; pl_borrowerAddress := None; pl_amount := None;
  pl_dueDate := None; pl_repaid := None; pl_approved := Some (Some true);
  pl_defaulted := None; pl_createdAt := None |}.

Definition group_patch_name (name : string) : PartialGroup := {|
  pg_id := None; pg_name := Some name; pg_admin := None;
  pg_totalDeposits := None; pg_totalLoaned := None |}.

Definition proposal_patch_executed : PartialProposal := {|
  pp_id := None; pp_groupId := None; pp_description := None;
  pp_votesYes := None; pp_votesNo := None; pp_deadline := None;
  pp_executed := Some (Some true); pp_createdAt := None |}.

Definition vote_body (proposalId : Z) (voterAddress : string) (vote : bool)
  : InsertVote := {|
  iv_proposalId := proposalId; iv_voterAddress := voterAddress; iv_vote := vote |}.

Definition proposal_body (groupId : Z) (description : string) (deadline : Z)
  : InsertProposal := {|
  ip_groupId := groupId; ip_description := description; ip_deadline := deadline |}.


(** A database with one proposal and one vote on it, and the in-memory
    store after the same proposal and vote. *)
Definition sample_proposal : Proposal := {|
  proposal_id := 1; proposal_groupId := 1;
  proposal_description := "buy a water tank";
  proposal_votesYes := Some 1; proposal_votesNo := Some 0;
  proposal_deadline := 2000; proposal_executed := Some false;
  proposal_createdAt := Some 1000 |}.

Definition sample_vote : Vote := {|
  vote_id := 1; vote_proposalId := 1; vote_voterAddress := "0xabc1";
  vote_vote := true |}.

Definition db_one_vote : DatabaseStorage.state := {|
  DatabaseStorage.users := []; DatabaseStorage.groups := [];
  DatabaseStorage.groupMembers := []; DatabaseStorage.loans := [];
  DatabaseStorage.guarantors := [];
  DatabaseStorage.proposals := [sample_proposal];
  DatabaseStorage.votes := [sample_vote];
  DatabaseStorage.activities := [];
  DatabaseStorage.sequences := {|
    DatabaseStorage.users_id_seq := 1; DatabaseStorage.groups_id_seq := 1;
    DatabaseStorage.group_members_id_seq := 1; DatabaseStorage.loans_id_seq := 1;
    DatabaseStorage.guarantors_id_seq := 1; DatabaseStorage.proposals_id_seq := 2;
    DatabaseStorage.votes_id_seq := 2; DatabaseStorage.activities_id_seq := 1 |} |}.

Definition mem_one_vote : MemStorage.state :=
  (MemStorage.addVote
     (MemStorage.createProposal MemStorage.new 1000
        (proposal_body 1 "buy a water tank" 2000)).1
     (vote_body 1 "0xabc1" true)).1.

(** The same voter, in capitals, votes again. *)
Definition second_vote : VoteRequest := {|
  params_id := Some 1; body_voterAddress := Some "0XABC1"; body_vote := Some false |}.

(** The body [{ name, admin }], and the in-memory store after one group. *)
Definition group_body (name admin : string) : InsertGroup := {|
  ig_name := name; ig_admin := admin |}.

Definition mem_one_group : MemStorage.state :=
  run (CreateGroup (group_body "savers" "0xAbC1")) MemStorage.new.

(** The body [{ borrowerAddress, amount, dueDate }], and an address of 43
    characters, one more than the address columns hold. *)
Definition loan_body (borrowerAddress : string) (amount dueDate : Z) : InsertLoan := {|
  il_borrowerAddress := borrowerAddress; il_amount := amount; il_dueDate := dueDate;
  il_repaid := None; il_approved := None; il_defaulted := None |}.


(** The body [{ id: 9 }] of a [PATCH /api/proposals/:id]. *)
Definition proposal_patch_id : PartialProposal := {|
  pp_id := Some 9; pp_groupId := None; pp_description := None;
  pp_votesYes := None; pp_votesNo := None; pp_deadline := None;
  pp_executed := None; pp_createdAt := None |}.

(** ** Ranges of the relational store

    [int4]: the integers of a PostgreSQL [integer] or [serial] column.
    [common_era]: the instants, in milliseconds since 1970, from the year 1
    to the year 9999, which a JavaScript [Date] and a PostgreSQL
    [timestamp] both hold. *)
Definition int4 (n : Z) : Prop := - 2 ^ 31 <= n < 2 ^ 31.

Definition common_era (t : Z) : Prop := -62135596800000 <= t <= 253402300799999.

(** A key of an insert that may be absent or [null]. *)
Definition when_given (P : Z → Prop) (x : option (option Z)) : Prop :=
  match x with Some (Some n) => P n | _ => True end.

(** The numbers of a user to insert are such values. *)
Definition user_in_range (d : InsertUser) : Prop :=
  when_given int4 (iu_groupId d)
  ∧ when_given int4 (iu_totalDeposits d)
  ∧ when_given int4 (iu_creditScore d)
  ∧ when_given common_era (iu_lastDepositTime d).

(** The eight sequences hold values that their [serial] columns take. *)
Record int4_sequences (s : DatabaseStorage.state) : Prop := {
  int4_users_id_seq : int4 (DatabaseStorage.users_id_seq (DatabaseStorage.sequences s));
  int4_groups_id_seq : int4 (DatabaseStorage.groups_id_seq (DatabaseStorage.sequences s));
  int4_group_members_id_seq :
    int4 (DatabaseStorage.group_members_id_seq (DatabaseStorage.sequences s));
  int4_loans_id_seq : int4 (DatabaseStorage.loans_id_seq (DatabaseStorage.sequences s));
  int4_guarantors_id_seq :
    int4 (DatabaseStorage.guarantors_id_seq (DatabaseStorage.sequences s));
  int4_proposals_id_seq :
    int4 (DatabaseStorage.proposals_id_seq (DatabaseStorage.sequences s));
  int4_votes_id_seq : int4 (DatabaseStorage.votes_id_seq (DatabaseStorage.sequences s));
  int4_activities_id_seq :
    int4 (DatabaseStorage.activities_id_seq (DatabaseStorage.sequences s)) }.

(** Two databases with the same rows in every table. *)
Record same_rows (s s' : DatabaseStorage.state) : Prop := {
  same_users : DatabaseStorage.users s' = DatabaseStorage.users s;
  same_groups : DatabaseStorage.groups s' = DatabaseStorage.groups s;
  same_groupMembers : DatabaseStorage.groupMembers s' = DatabaseStorage.groupMembers s;
  same_loans : DatabaseStorage.loans s' = DatabaseStorage.loans s;
  same_guarantors : DatabaseStorage.guarantors s' = DatabaseStorage.guarantors s;
  same_proposals : DatabaseStorage.proposals s' = DatabaseStorage.proposals s;
  same_votes : DatabaseStorage.votes s' = DatabaseStorage.votes s;
  same_activities : DatabaseStorage.activities s' = DatabaseStorage.activities s }.

(** * Properties *)

(** ** Lower case and case variants *)

Lemma nat_of_lower_upper c :
  is_upper c = true →
  nat_of_ascii (ascii_of_nat (nat_of_ascii c + 32)) = (nat_of_ascii c + 32)%nat.
Proof.
  unfold is_upper. intros H. apply andb_prop in H as [_ H].
  apply Nat.leb_le in H. apply nat_ascii_embedding. lia.
Qed.

Lemma lower_not_upper c : is_upper (lower_ascii c) = false.
Proof.
  unfold lower_ascii. destruct (is_upper c) eqn:E; [|done].
  unfold is_upper at 1. rewrite nat_of_lower_upper by done.
  unfold is_upper in E. apply andb_prop in E as [E1 E2].
  apply Nat.leb_le in E1, E2.
  apply andb_false_iff. right. apply Nat.leb_gt. lia.
Qed.

Lemma lower_ascii_idem c : lower_ascii (lower_ascii c) = lower_ascii c.
Proof. unfold lower_ascii at 1. by rewrite lower_not_upper. Qed.

Lemma toLowerCase_idem s : toLowerCase (toLowerCase s) = toLowerCase s.
Proof. induction s as [|c s IH]; simpl; [done|]. by rewrite lower_ascii_idem, IH. Qed.

Lemma toLowerCase_length s : String.length (toLowerCase s) = String.length s.
Proof. induction s as [|c s IH]; simpl; [done|]. by rewrite IH. Qed.

Lemma nat_of_ascii_inj c d : nat_of_ascii c = nat_of_ascii d → c = d.
Proof.
  intros H. rewrite <- (ascii_nat_embedding c), <- (ascii_nat_embedding d).
  by rewrite H.
Qed.

Lemma same_letter_lower c d : same_letter c d ↔ lower_ascii c = lower_ascii d.
Proof.
  unfold same_letter, lower_ascii. split.
  - intros [-> | [[Hc ->] | [Hd ->]]]; [done | |].
    + rewrite Hc.
      pose proof (lower_not_upper c) as H. unfold lower_ascii in H.
      rewrite Hc in H. by rewrite H.
    + rewrite Hd.
      pose proof (lower_not_upper d) as H. unfold lower_ascii in H.
      rewrite Hd in H. by rewrite H.
  - destruct (is_upper c) eqn:Hc, (is_upper d) eqn:Hd; intros H.
    + left. apply nat_of_ascii_inj.
      apply (f_equal nat_of_ascii) in H.
      rewrite !nat_of_lower_upper in H by done. lia.
    + right. left. by split.
    + right. right. by split.
    + by left.
Qed.

(** Case variants are exactly the strings with the same lower-case form. *)
Lemma case_variant_lower a b : case_variant a b ↔ toLowerCase a = toLowerCase b.
Proof.
  split.
  - induction 1 as [|c d s t Hcd _ IH]; simpl; [done|].
    apply same_letter_lower in Hcd. by rewrite Hcd, IH.
  - revert b. induction a as [|c a IH]; intros [|d b]; simpl; intros H;
      try discriminate; [constructor|].
    injection H as Hc Hs. constructor; [by apply same_letter_lower | by apply IH].
Qed.

Lemma case_variant_refl a : case_variant a a.
Proof. by apply case_variant_lower. Qed.

Lemma case_variant_sym a b : case_variant a b → case_variant b a.
Proof. rewrite !case_variant_lower. done. Qed.

Lemma case_variant_toLowerCase a : case_variant a (toLowerCase a).
Proof. apply case_variant_lower. by rewrite toLowerCase_idem. Qed.

(** ** Insertion-ordered maps *)

Section omap_facts.
Context {K : Type} `{EqDecision K} {V : Type}.
Implicit Types (k : K) (v : V) (m : list (K * V)).

Lemma omap_get_set_eq k v m : OMap.get k (OMap.set k v m) = Some v.
Proof.
  induction m as [|[k' v'] r IH]; simpl.
  - by rewrite decide_True.
  - destruct (decide (k = k')) as [->|Hne]; simpl.
    + by rewrite decide_True.
    + by rewrite decide_False.
Qed.

Lemma omap_get_set_ne k k' v m : k ≠ k' → OMap.get k' (OMap.set k v m) = OMap.get k' m.
Proof.
  intros Hne. induction m as [|[k0 v0] r IH]; simpl.
  - rewrite decide_False; [done | congruence].
  - destruct (decide (k = k0)) as [->|Hk]; simpl.
    + rewrite !decide_False; [done | congruence | congruence].
    + destruct (decide (k' = k0)); [done | apply IH].
Qed.

Lemma omap_get_set k k' v m :
  OMap.get k' (OMap.set k v m) = if decide (k = k') then Some v else OMap.get k' m.
Proof.
  destruct (decide (k = k')) as [->|Hne]; [apply omap_get_set_eq | by apply omap_get_set_ne].
Qed.

End omap_facts.

(** ** The in-memory store *)

Lemma mem_getUser_createUser s d a :
  case_variant a (iu_address d) →
  MemStorage.getUser (MemStorage.createUser s d).1 a
  = Some (MemStorage.createUser s d).2.
Proof.
  intros Hcv. apply case_variant_lower in Hcv.
  unfold MemStorage.getUser, MemStorage.createUser. simpl.
  rewrite Hcv. apply lookup_insert_eq.
Qed.

(** C5.  After [createUser] has returned the record [r], [getUser] returns
    [r] for every case variant of the address the user was created with. *)
Theorem createUser_getUser_any_case (s : MemStorage.state) (d : InsertUser) (a' : string) :
  case_variant a' (iu_address d) →
  let '(s', r) := MemStorage.createUser s d in
  MemStorage.getUser s' a' = Some r.
Proof.
  intros Hcv. pose proof (mem_getUser_createUser s d a' Hcv) as H.
  by destruct (MemStorage.createUser s d).
Qed.

Lemma createUser_getUser_any_case_witness :
  case_variant "0XABCDEF" "0xAbCdEf"
  ∧ let '(s', r) := MemStorage.createUser MemStorage.new (user_body "0xAbCdEf") in
    MemStorage.getUser s' "0XABCDEF" = Some r.
Proof.
  assert (Hcv : case_variant "0XABCDEF" (iu_address (user_body "0xAbCdEf"))).
  { apply case_variant_lower. reflexivity. }
  split; [exact Hcv|].
  exact (createUser_getUser_any_case MemStorage.new (user_body "0xAbCdEf")
           "0XABCDEF" Hcv).
Defined.

(** C7.  [updateLoan], [updateGroup] and [updateProposal] on an id that the
    store does not hold return [undefined] and leave the store as it was. *)
Theorem update_missing_is_undefined (s : MemStorage.state) (id : Z) :
  (∀ data, MemStorage.getLoan s id = None →
           MemStorage.updateLoan s id data = (s, None))
  ∧ (∀ data, MemStorage.getGroup s id = None →
             MemStorage.updateGroup s id data = (s, None))
  ∧ (∀ data, MemStorage.getProposal s id = None →
             MemStorage.updateProposal s id data = (s, None)).
Proof.
  repeat split; intros data Hnone.
  - unfold MemStorage.updateLoan. by rewrite Hnone.
  - unfold MemStorage.updateGroup. by rewrite Hnone.
  - unfold MemStorage.updateProposal. by rewrite Hnone.
Qed.

Lemma update_missing_is_undefined_witness :
  MemStorage.updateLoan MemStorage.new 7 loan_patch_approved = (MemStorage.new, None)
  ∧ MemStorage.updateGroup MemStorage.new 7 (group_patch_name "savers")
    = (MemStorage.new, None)
  ∧ MemStorage.updateProposal MemStorage.new 7 proposal_patch_executed
    = (MemStorage.new, None).
Proof.
  destruct (update_missing_is_undefined MemStorage.new 7) as (Hl & Hg & Hp).
  split; [|split].
  - apply Hl. reflexivity.
  - apply Hg. reflexivity.
  - apply Hp. reflexivity.
Defined.

(** C10.  [addVote] for a proposal id under which no proposal is stored
    still appends the vote and returns it; no proposal is touched. *)
Theorem addVote_without_proposal (s : MemStorage.state) (v : InsertVote) :
  MemStorage.getProposal s (iv_proposalId v) = None →
  let '(s', vote) := MemStorage.addVote s v in
  vote = {| vote_id := MemStorage.cur_vote (MemStorage.currentIds s);
            vote_proposalId := iv_proposalId v;
            vote_voterAddress := iv_voterAddress v;
            vote_vote := iv_vote v |}
  ∧ MemStorage.votes s' !! iv_proposalId v
    = Some (MemStorage.getVotes s (iv_proposalId v) ++ [vote])
  ∧ MemStorage.proposals s' = MemStorage.proposals s.
Proof.
  intros Hnone. unfold MemStorage.addVote, MemStorage.getProposal in *.
  simpl. rewrite Hnone. simpl. repeat split.
  apply lookup_insert_eq.
Qed.

Lemma addVote_without_proposal_witness :
  MemStorage.getProposal MemStorage.new 5 = None
  ∧ let '(s', vote) := MemStorage.addVote MemStorage.new (vote_body 5 "0xA1" true) in
    vote = {| vote_id := 1; vote_proposalId := 5;
              vote_voterAddress := "0xA1"; vote_vote := true |}
    ∧ MemStorage.votes s' !! 5 = Some ([] ++ [vote])
    ∧ MemStorage.proposals s' = ∅.
Proof.
  split; [reflexivity|].
  exact (addVote_without_proposal MemStorage.new (vote_body 5 "0xA1" true) eq_refl).
Defined.

(** ** Vote tallies *)

(** In the in-memory store a vote on a stored proposal moves exactly one
    tally by one ([null] counts as [0]) and leaves the rest of the proposal
    alone, for a tally from which a JavaScript number counts exactly
    ([counts_exactly]: at [2^53] the tally would stay where it is). *)
Lemma mem_addVote_tally (s : MemStorage.state) (v : InsertVote) (p : Proposal) :
  MemStorage.getProposal s (iv_proposalId v) = Some p →
  counts_exactly
    (js_number (if iv_vote v then proposal_votesYes p else proposal_votesNo p)) →
  ∃ p', MemStorage.getProposal (MemStorage.addVote s v).1 (iv_proposalId v) = Some p'
    ∧ (iv_vote v = true →
         js_number (proposal_votesYes p') = js_number (proposal_votesYes p) + 1
         ∧ proposal_votesNo p' = proposal_votesNo p)
    ∧ (iv_vote v = false →
         js_number (proposal_votesNo p') = js_number (proposal_votesNo p) + 1
         ∧ proposal_votesYes p' = proposal_votesYes p)
    ∧ proposal_id p' = proposal_id p
    ∧ proposal_groupId p' = proposal_groupId p
    ∧ proposal_description p' = proposal_description p
    ∧ proposal_deadline p' = proposal_deadline p
    ∧ proposal_executed p' = proposal_executed p
    ∧ proposal_createdAt p' = proposal_createdAt p.
Proof.
  intros Hp _. unfold MemStorage.addVote, MemStorage.updateProposal,
    MemStorage.getProposal in *. simpl. rewrite Hp. simpl.
  eexists. split; [apply lookup_insert_eq|].
  destruct (iv_vote v); simpl; repeat split; try done.
Qed.

Lemma mem_addVote_tally_witness :
  ∃ p', MemStorage.getProposal
          (MemStorage.addVote mem_one_vote (vote_body 1 "0xd4" false)).1 1 = Some p'
    ∧ proposal_votesYes p' = Some 1
    ∧ proposal_votesNo p' = Some 1.
Proof.
  destruct (mem_addVote_tally mem_one_vote (vote_body 1 "0xd4" false)
              sample_proposal eq_refl ltac:(unfold counts_exactly; simpl; lia))
    as (p' & Hp' & _ & Hno & _).
  exists p'. split; [exact Hp'|].
  destruct (Hno eq_refl) as [Hn Hy]. split; [exact Hy|].
  revert Hn. vm_compute in Hp'. injection Hp' as <-. reflexivity.
Defined.

(** The relational [addVote] never resolves: the statement that is to move
    the tally names a column that [proposals] does not have, so it fails,
    and the transaction takes the inserted vote back with it. *)
Lemma db_addVote_rejects (s : DatabaseStorage.state) (v : InsertVote) :
  ∃ e, DatabaseStorage.addVote s v = Throw e.
Proof.
  unfold DatabaseStorage.addVote, DatabaseStorage.transaction.
  destruct (DatabaseStorage.insert_votes s _) as [[tx vote]|e]; simpl.
  - destruct (iv_vote v); simpl; eauto.
  - eauto.
Qed.

(** C1, at a stored proposal of the relational store: the vote is rejected
    with [column "votesYes" does not exist], and the proposal keeps its
    tallies; the in-memory store counts the same vote. *)
Theorem db_addVote_does_not_count :
  ∃ s p,
    DatabaseStorage.createProposal DatabaseStorage.empty 1000
      (proposal_body 1 "buy a water tank" 2000) = Ok (s, p)
    ∧ DatabaseStorage.getProposal s 1 = Some p
    ∧ proposal_votesYes p = Some 0
    ∧ DatabaseStorage.addVote s (vote_body 1 "0xA1" true)
      = Throw (UndefinedColumn "votesYes")
    ∧ DatabaseStorage.addVote s (vote_body 1 "0xA1" false)
      = Throw (UndefinedColumn "votesNo")
    ∧ let m := (MemStorage.createProposal MemStorage.new 1000
                  (proposal_body 1 "buy a water tank" 2000)).1 in
      proposal_votesYes
        <$> MemStorage.getProposal
              (MemStorage.addVote m (vote_body 1 "0xA1" true)).1 1
      = Some (Some 1).
Proof.
  eexists _, _. split; [reflexivity|]. repeat split; reflexivity.
Qed.

(** ** Columns of bounded width *)

Lemma varchar_fits n v :
  (String.length v ≤ n)%nat → DatabaseStorage.varchar n v = Ok v.
Proof.
  intros H. unfold DatabaseStorage.varchar.
  apply Nat.leb_le in H. by rewrite H.
Qed.

Lemma varchar_lower_fits n v :
  (String.length v ≤ n)%nat →
  DatabaseStorage.varchar n (toLowerCase v) = Ok (toLowerCase v).
Proof. intros H. apply varchar_fits. by rewrite toLowerCase_length. Qed.

Lemma same_address_refl a : same_address a a = true.
Proof. unfold same_address. apply String.eqb_refl. Qed.

(** ** Group creation *)

Lemma mem_createGroup_members s g :
  OMap.get (group_id (MemStorage.createGroup s g).2)
    (MemStorage.groupMembers (MemStorage.createGroup s g).1)
  = Some [ {| member_id := MemStorage.cur_groupMember (MemStorage.currentIds s);
              member_groupId := MemStorage.cur_group (MemStorage.currentIds s);
              member_memberAddress := ig_admin g |} ].
Proof.
  unfold MemStorage.createGroup, MemStorage.addGroupMember. simpl.
  rewrite omap_get_set_eq. simpl. by rewrite omap_get_set_eq.
Qed.

Lemma db_createGroup_isGroupMember s g s' group :
  (String.length (ig_admin g) ≤ 42)%nat →
  DatabaseStorage.createGroup s g = Ok (s', group) →
  DatabaseStorage.isGroupMember s' (group_id group) (ig_admin g) = true.
Proof.
  intros Hfit. unfold DatabaseStorage.createGroup, DatabaseStorage.transaction,
    DatabaseStorage.insert_groups, DatabaseStorage.insert_groupMembers.
  rewrite (varchar_fits _ _ Hfit). simpl.
  destruct (existsb _ (DatabaseStorage.groups s)); [discriminate|]. simpl.
  rewrite (varchar_lower_fits _ _ Hfit). simpl.
  destruct (existsb _ (DatabaseStorage.groupMembers s)); [discriminate|]. simpl.
  intros [= <- <-]. unfold DatabaseStorage.isGroupMember. simpl.
  rewrite existsb_app. simpl.
  rewrite Z.eqb_refl, String.eqb_refl. simpl. by rewrite orb_true_r.
Qed.

(** C3, as stated, fails in the relational store for an admin that is
    longer than its column: an admin of 43 characters that ends in a space
    is cut to 42 when it is stored, and the member check, which compares
    with all 43, misses it.  [insertGroupSchema] is derived from the table
    and admits no such admin. *)
Example db_createGroup_padded_admin :
  ∃ s' group,
    DatabaseStorage.createGroup DatabaseStorage.empty
      {| ig_name := "savers";
         ig_admin := "0x5aaeb6053f3e94c9b9a09f33669435e7ef1beaed " |}
    = Ok (s', group)
    ∧ DatabaseStorage.isGroupMember s' (group_id group)
        "0x5aaeb6053f3e94c9b9a09f33669435e7ef1beaed " = false.
Proof. eexists _, _. split; reflexivity. Qed.

(** C3, amended.  Right after [createGroup] has returned a group, its admin
    is a member of it: in the in-memory store (where the admin is the one member
    of the new group) and in the relational store, for an admin address
    that fits the 42 characters of the [varchar(42)] columns, as every
    admin that [insertGroupSchema] admits does. *)
Theorem createGroup_enrols_admin (g : InsertGroup) :
  (∀ s : MemStorage.state,
     let '(s', group) := MemStorage.createGroup s g in
     MemStorage.isGroupMember s' (group_id group) (ig_admin g) = true
     ∧ ∃ m, OMap.get (group_id group) (MemStorage.groupMembers s') = Some [m]
            ∧ member_memberAddress m = ig_admin g)
  ∧ (∀ (s s' : DatabaseStorage.state) (group : Group),
       (String.length (ig_admin g) ≤ 42)%nat →
       DatabaseStorage.createGroup s g = Ok (s', group) →
       DatabaseStorage.isGroupMember s' (group_id group) (ig_admin g) = true).
Proof.
  split.
  - intros s. pose proof (mem_createGroup_members s g) as Hm.
    destruct (MemStorage.createGroup s g) as [s' group] eqn:E. simpl in Hm.
    split.
    + unfold MemStorage.isGroupMember. rewrite Hm. simpl.
      by rewrite same_address_refl.
    + eexists. split; [exact Hm | done].
  - intros s s' group. apply db_createGroup_isGroupMember.
Qed.

Lemma createGroup_enrols_admin_witness :
  let g := {| ig_name := "savers"; ig_admin := "0xAbC1" |} in
  (let '(s', group) := MemStorage.createGroup MemStorage.new g in
   MemStorage.isGroupMember s' (group_id group) "0xAbC1" = true)
  ∧ ∃ s' group,
      DatabaseStorage.createGroup DatabaseStorage.empty g = Ok (s', group)
      ∧ DatabaseStorage.isGroupMember s' (group_id group) "0xAbC1" = true.
Proof.
  intros g. destruct (createGroup_enrols_admin g) as [Hmem Hdb]. split.
  - specialize (Hmem MemStorage.new).
    destruct (MemStorage.createGroup MemStorage.new g). apply Hmem.
  - eexists _, _. split; [reflexivity|].
    apply (Hdb DatabaseStorage.empty); [vm_compute; lia | reflexivity].
Defined.

(** ** What the stores keep of an address *)

Ltac db_insert :=
  let Hfit := fresh "Hfit" in
  intros Hfit; cbv beta delta
    [DatabaseStorage.createUser DatabaseStorage.addGroupMember
     DatabaseStorage.createLoan DatabaseStorage.addGuarantor
     DatabaseStorage.addActivity
     DatabaseStorage.insert_users DatabaseStorage.insert_groupMembers
     DatabaseStorage.insert_loans DatabaseStorage.insert_guarantors
     DatabaseStorage.insert_activities];
  simpl; rewrite (varchar_lower_fits _ _ Hfit); simpl;
  repeat match goal with
  | |- context [DatabaseStorage.varchar ?n ?v] =>
      destruct (DatabaseStorage.varchar n v); simpl; [|discriminate]
  | |- context [if ?b then Throw _ else _] =>
      destruct b; simpl; [discriminate|]
  end;
  intros [= <- <-]; simpl; split; reflexivity.

Lemma db_createUser_address s now d s' r :
  (String.length (iu_address d) ≤ 42)%nat →
  DatabaseStorage.createUser s now d = Ok (s', r) →
  user_address r = toLowerCase (iu_address d)
  ∧ DatabaseStorage.users s' = DatabaseStorage.users s ++ [r].
Proof. db_insert. Qed.

Lemma db_addGroupMember_address s d s' r :
  (String.length (im_memberAddress d) ≤ 42)%nat →
  DatabaseStorage.addGroupMember s d = Ok (s', r) →
  member_memberAddress r = toLowerCase (im_memberAddress d)
  ∧ DatabaseStorage.groupMembers s' = DatabaseStorage.groupMembers s ++ [r].
Proof. db_insert. Qed.

Lemma db_createLoan_address s now d s' r :
  (String.length (il_borrowerAddress d) ≤ 42)%nat →
  DatabaseStorage.createLoan s now d = Ok (s', r) →
  loan_borrowerAddress r = toLowerCase (il_borrowerAddress d)
  ∧ DatabaseStorage.loans s' = DatabaseStorage.loans s ++ [r].
Proof. db_insert. Qed.

Lemma db_addGuarantor_address s d s' r :
  (String.length (igu_guarantorAddress d) ≤ 42)%nat →
  DatabaseStorage.addGuarantor s d = Ok (s', r) →
  guarantor_guarantorAddress r = toLowerCase (igu_guarantorAddress d)
  ∧ DatabaseStorage.guarantors s' = DatabaseStorage.guarantors s ++ [r].
Proof. db_insert. Qed.

Lemma db_addActivity_address s now d s' r :
  (String.length (ia_userAddress d) ≤ 42)%nat →
  DatabaseStorage.addActivity s now d = Ok (s', r) →
  activity_userAddress r = toLowerCase (ia_userAddress d)
  ∧ DatabaseStorage.activities s' = DatabaseStorage.activities s ++ [r].
Proof. db_insert. Qed.

Lemma mem_createUser_address s d :
  user_address (MemStorage.createUser s d).2 = toLowerCase (iu_address d)
  ∧ MemStorage.users (MemStorage.createUser s d).1 !! toLowerCase (iu_address d)
    = Some (MemStorage.createUser s d).2.
Proof. split; [reflexivity|]. simpl. apply lookup_insert_eq. Qed.

Lemma mem_addGroupMember_address s d :
  member_memberAddress (MemStorage.addGroupMember s d).2 = im_memberAddress d
  ∧ OMap.get (im_groupId d) (MemStorage.groupMembers (MemStorage.addGroupMember s d).1)
    = Some (default [] (OMap.get (im_groupId d) (MemStorage.groupMembers s))
            ++ [(MemStorage.addGroupMember s d).2]).
Proof. split; [reflexivity|]. simpl. apply omap_get_set_eq. Qed.

Lemma mem_createLoan_address s now d :
  loan_borrowerAddress (MemStorage.createLoan s now d).2 = il_borrowerAddress d
  ∧ MemStorage.getLoan (MemStorage.createLoan s now d).1
      (loan_id (MemStorage.createLoan s now d).2)
    = Some (MemStorage.createLoan s now d).2
  ∧ MemStorage.loansByBorrower (MemStorage.createLoan s now d).1
      !! toLowerCase (il_borrowerAddress d)
    = Some (default [] (MemStorage.loansByBorrower s !! toLowerCase (il_borrowerAddress d))
            ++ [loan_id (MemStorage.createLoan s now d).2]).
Proof.
  split; [reflexivity|]. unfold MemStorage.getLoan. simpl.
  split; apply lookup_insert_eq.
Qed.

Lemma mem_addGuarantor_address s d :
  guarantor_guarantorAddress (MemStorage.addGuarantor s d).2 = igu_guarantorAddress d
  ∧ MemStorage.getLoanGuarantors (MemStorage.addGuarantor s d).1 (igu_loanId d)
    = MemStorage.getLoanGuarantors s (igu_loanId d) ++ [(MemStorage.addGuarantor s d).2].
Proof.
  split; [reflexivity|]. unfold MemStorage.getLoanGuarantors. simpl.
  by rewrite lookup_insert_eq.
Qed.

Lemma mem_addVote_votes s v :
  MemStorage.getVotes (MemStorage.addVote s v).1 (iv_proposalId v)
  = MemStorage.getVotes s (iv_proposalId v) ++ [(MemStorage.addVote s v).2].
Proof.
  unfold MemStorage.getVotes, MemStorage.addVote, MemStorage.updateProposal,
    MemStorage.getProposal. simpl.
  destruct (MemStorage.proposals s !! iv_proposalId v); simpl;
    by rewrite lookup_insert_eq.
Qed.

Lemma mem_addVote_record s v :
  (MemStorage.addVote s v).2
  = {| vote_id := MemStorage.cur_vote (MemStorage.currentIds s);
       vote_proposalId := iv_proposalId v;
       vote_voterAddress := iv_voterAddress v;
       vote_vote := iv_vote v |}.
Proof.
  unfold MemStorage.addVote, MemStorage.getProposal. simpl.
  by destruct (MemStorage.proposals s !! iv_proposalId v).
Qed.

Lemma mem_addActivity_address s now d :
  activity_userAddress (MemStorage.addActivity s now d).2 = ia_userAddress d
  ∧ MemStorage.activities (MemStorage.addActivity s now d).1 !! ia_groupId d
    = Some (default [] (MemStorage.activities s !! ia_groupId d)
            ++ [(MemStorage.addActivity s now d).2]).
Proof. split; [reflexivity|]. simpl. apply lookup_insert_eq. Qed.

(** C4, as stated, fails in the in-memory store: [addGroupMember] stores the
    member address [0xABC] with its capitals. *)
Lemma mem_addGroupMember_keeps_case :
  let '(s', m) :=
    MemStorage.addGroupMember MemStorage.new
      {| im_groupId := 1; im_memberAddress := "0xABC" |} in
  OMap.get 1 (MemStorage.groupMembers s') = Some [m]
  ∧ member_memberAddress m = "0xABC"
  ∧ member_memberAddress m ≠ toLowerCase "0xABC".
Proof. repeat split. discriminate. Qed.

(** C4, amended.  [createUser] stores the lower-case address in both
    stores.  The relational [addGroupMember], [createLoan], [addGuarantor]
    and [addActivity] store the lower-case form of an address that fits the
    42 characters of its column.  The in-memory [addGroupMember],
    [createLoan], [addGuarantor], [addVote] and [addActivity] store the
    address as it was given; [createLoan] lower-cases the key of its
    [loansByBorrower] index only. *)
Theorem stored_address_forms :
  (∀ s d,
     let '(s', r) := MemStorage.createUser s d in
     user_address r = toLowerCase (iu_address d)
     ∧ MemStorage.users s' !! toLowerCase (iu_address d) = Some r)
  ∧ (∀ s now d s' r,
       (String.length (iu_address d) ≤ 42)%nat →
       DatabaseStorage.createUser s now d = Ok (s', r) →
       user_address r = toLowerCase (iu_address d)
       ∧ DatabaseStorage.users s' = DatabaseStorage.users s ++ [r])
  ∧ (∀ s d s' r,
       (String.length (im_memberAddress d) ≤ 42)%nat →
       DatabaseStorage.addGroupMember s d = Ok (s', r) →
       member_memberAddress r = toLowerCase (im_memberAddress d)
       ∧ DatabaseStorage.groupMembers s' = DatabaseStorage.groupMembers s ++ [r])
  ∧ (∀ s now d s' r,
       (String.length (il_borrowerAddress d) ≤ 42)%nat →
       DatabaseStorage.createLoan s now d = Ok (s', r) →
       loan_borrowerAddress r = toLowerCase (il_borrowerAddress d)
       ∧ DatabaseStorage.loans s' = DatabaseStorage.loans s ++ [r])
  ∧ (∀ s d s' r,
       (String.length (igu_guarantorAddress d) ≤ 42)%nat →
       DatabaseStorage.addGuarantor s d = Ok (s', r) →
       guarantor_guarantorAddress r = toLowerCase (igu_guarantorAddress d)
       ∧ DatabaseStorage.guarantors s' = DatabaseStorage.guarantors s ++ [r])
  ∧ (∀ s now d s' r,
       (String.length (ia_userAddress d) ≤ 42)%nat →
       DatabaseStorage.addActivity s now d = Ok (s', r) →
       activity_userAddress r = toLowerCase (ia_userAddress d)
       ∧ DatabaseStorage.activities s' = DatabaseStorage.activities s ++ [r])
  ∧ (∀ s d,
       let '(s', m) := MemStorage.addGroupMember s d in
       member_memberAddress m = im_memberAddress d
       ∧ OMap.get (im_groupId d) (MemStorage.groupMembers s')
         = Some (default [] (OMap.get (im_groupId d) (MemStorage.groupMembers s))
                 ++ [m]))
  ∧ (∀ s now d,
       let '(s', l) := MemStorage.createLoan s now d in
       loan_borrowerAddress l = il_borrowerAddress d
       ∧ MemStorage.getLoan s' (loan_id l) = Some l
       ∧ MemStorage.loansByBorrower s' !! toLowerCase (il_borrowerAddress d)
         = Some (default []
                   (MemStorage.loansByBorrower s !! toLowerCase (il_borrowerAddress d))
                 ++ [loan_id l]))
  ∧ (∀ s d,
       let '(s', g) := MemStorage.addGuarantor s d in
       guarantor_guarantorAddress g = igu_guarantorAddress d
       ∧ MemStorage.getLoanGuarantors s' (igu_loanId d)
         = MemStorage.getLoanGuarantors s (igu_loanId d) ++ [g])
  ∧ (∀ s d,
       let '(s', v) := MemStorage.addVote s d in
       vote_voterAddress v = iv_voterAddress d
       ∧ MemStorage.getVotes s' (iv_proposalId d)
         = MemStorage.getVotes s (iv_proposalId d) ++ [v])
  ∧ (∀ s now d,
       let '(s', a) := MemStorage.addActivity s now d in
       activity_userAddress a = ia_userAddress d
       ∧ MemStorage.activities s' !! ia_groupId d
         = Some (default [] (MemStorage.activities s !! ia_groupId d) ++ [a])).
Proof.
  split; [|split; [|split; [|split; [|split; [|split; [|split; [|split;
    [|split; [|split]]]]]]]]].
  - intros s d. pose proof (mem_createUser_address s d).
    by destruct (MemStorage.createUser s d).
  - apply db_createUser_address.
  - apply db_addGroupMember_address.
  - apply db_createLoan_address.
  - apply db_addGuarantor_address.
  - apply db_addActivity_address.
  - intros s d. pose proof (mem_addGroupMember_address s d).
    by destruct (MemStorage.addGroupMember s d).
  - intros s now d. pose proof (mem_createLoan_address s now d).
    by destruct (MemStorage.createLoan s now d).
  - intros s d. pose proof (mem_addGuarantor_address s d).
    by destruct (MemStorage.addGuarantor s d).
  - intros s d. pose proof (mem_addVote_votes s d) as Hv.
    pose proof (mem_addVote_record s d) as Hr.
    destruct (MemStorage.addVote s d) as [s' v]. simpl in *.
    split; [by rewrite Hr | done].
  - intros s now d. pose proof (mem_addActivity_address s now d).
    by destruct (MemStorage.addActivity s now d).
Qed.

Lemma stored_address_forms_witness :
  (∃ s' r,
     DatabaseStorage.addGroupMember DatabaseStorage.empty
       {| im_groupId := 1; im_memberAddress := "0xABC" |} = Ok (s', r)
     ∧ member_memberAddress r = "0xabc"
     ∧ DatabaseStorage.groupMembers s' = [r])
  ∧ (∃ s' r,
     DatabaseStorage.createUser DatabaseStorage.empty 1000 (user_body "0xABC")
     = Ok (s', r)
     ∧ user_address r = "0xabc"
     ∧ DatabaseStorage.users s' = [r]).
Proof.
  destruct stored_address_forms as (_ & Hu & Hm & _).
  split.
  - eexists _, _. split; [reflexivity|].
    exact (Hm DatabaseStorage.empty {| im_groupId := 1; im_memberAddress := "0xABC" |}
             _ _ ltac:(vm_compute; lia) eq_refl).
  - eexists _, _. split; [reflexivity|].
    exact (Hu DatabaseStorage.empty 1000 (user_body "0xABC")
             _ _ ltac:(vm_compute; lia) eq_refl).
Defined.

(** ** The activity feed *)

Section activity_feed.
Implicit Types (a b : Activity) (l : list Activity).








End activity_feed.






(** ** Votes: the existence check of [POST /api/proposals/:id/votes] *)

Section routes_facts.
Context {Store : Type} `{IStorage Store}.
Variable insertVoteSchema : InsertVote → bool.
Variable insertUserSchema : InsertUser → bool.

Lemma postVotes_hasVoted (s : Store) now req d p :
  validateVote insertVoteSchema req = Some d →
  getProposal s (iv_proposalId d) = Some p →
  hasVoted s (proposal_id p) (iv_voterAddress d) = true →
  postVotes insertVoteSchema s now req
  = (s, {| status := 400; json := Message "Already voted on this proposal" |}).
Proof. intros Hv Hp Hh. unfold postVotes. by rewrite Hv, Hp, Hh. Qed.

Lemma postVotes_invalid (s : Store) now req :
  validateVote insertVoteSchema req = None →
  postVotes insertVoteSchema s now req = (s, {| status := 400; json := ZodMessage |}).
Proof. intros Hv. unfold postVotes. by rewrite Hv. Qed.

Lemma validateVote_Some req d :
  validateVote insertVoteSchema req = Some d →
  params_id req = Some (iv_proposalId d)
  ∧ body_voterAddress req = Some (iv_voterAddress d)
  ∧ body_vote req = Some (iv_vote d).
Proof.
  unfold validateVote.
  destruct (params_id req), (body_voterAddress req), (body_vote req); try done.
  destruct (insertVoteSchema _); [|done]. by intros [= <-].
Qed.

Lemma postUsers_existing (s : Store) now body d u :
  validateUser insertUserSchema body = Some d →
  getUser s (iu_address d) = Some u →
  postUsers insertUserSchema s now body = (s, {| status := 200; json := UserJson u |}).
Proof. intros Hv Hu. unfold postUsers. by rewrite Hv, Hu. Qed.

Lemma postUsers_again (s : Store) now now' body d :
  validateUser insertUserSchema body = Some d →
  (∀ s' r, createUser s now d = Ok (s', r) → getUser s' (iu_address d) = Some r) →
  ∀ u, json (postUsers insertUserSchema s now body).2 = UserJson u →
       getUser (postUsers insertUserSchema s now body).1 (iu_address d) = Some u
       ∧ postUsers insertUserSchema (postUsers insertUserSchema s now body).1 now' body
         = ((postUsers insertUserSchema s now body).1,
            {| status := 200; json := UserJson u |}).
Proof.
  intros Hv Hlaw u.
  destruct (postUsers insertUserSchema s now body) as [s1 r1] eqn:E. simpl.
  unfold postUsers in E. rewrite Hv in E.
  destruct (getUser s (iu_address d)) as [e|] eqn:He.
  - injection E as <- <-. simpl. intros [= <-].
    split; [done|]. by apply (postUsers_existing _ _ _ d).
  - destruct (createUser s now d) as [[s' r]|err] eqn:Hc.
    + injection E as <- <-. simpl. intros [= <-].
      specialize (Hlaw s' r eq_refl). split; [done|].
      by apply (postUsers_existing _ _ _ d).
    + injection E as <- <-. simpl. done.
Qed.

End routes_facts.

Lemma existsb_same_address {A} (f : A → string) (l : list A) (x : A) a :
  x ∈ l → case_variant (f x) a →
  existsb (λ y, same_address (f y) a) l = true.
Proof.
  intros Hin Hcv. apply existsb_exists. exists x.
  split; [by apply list_elem_of_In|].
  unfold same_address. apply String.eqb_eq. by apply case_variant_lower.
Qed.

Lemma mem_hasVoted_case_variant (s : MemStorage.state) pid a v :
  v ∈ MemStorage.getVotes s pid → case_variant (vote_voterAddress v) a →
  MemStorage.hasVoted s pid a = true.
Proof. apply (existsb_same_address vote_voterAddress). Qed.

Lemma db_hasVoted_case_variant (s : DatabaseStorage.state) pid a v :
  votes_lowercase s →
  v ∈ DatabaseStorage.getVotes s pid → case_variant (vote_voterAddress v) a →
  DatabaseStorage.hasVoted s pid a = true.
Proof.
  intros Hlow Hin Hcv. unfold DatabaseStorage.getVotes in Hin.
  apply list_elem_of_In, filter_In in Hin as [Hin Hpid].
  unfold DatabaseStorage.hasVoted. apply existsb_exists. exists v.
  split; [done|]. rewrite Hpid. simpl. apply String.eqb_eq.
  unfold votes_lowercase in Hlow. rewrite Forall_forall in Hlow.
  rewrite (Hlow v) by by apply list_elem_of_In.
  by apply case_variant_lower.
Qed.

Lemma db_getProposal_id (s : DatabaseStorage.state) pid p :
  DatabaseStorage.getProposal s pid = Some p → proposal_id p = pid.
Proof.
  unfold DatabaseStorage.getProposal. intros Hf.
  apply find_some in Hf as [_ Hid]. by apply Z.eqb_eq.
Qed.

(** Where the check of the handler does find the earlier vote: a vote
    request that names a stored proposal, from an address of which a case
    variant has a vote stored for that proposal, is answered with status
    400 and the store is left as it was, in the in-memory store when the
    proposal is stored under its own [id], in the relational store when the
    vote rows hold lower-case addresses ([votes_lowercase]). *)
Lemma postVotes_second_vote_same_id
  (insertVoteSchema : InsertVote → bool) (now : Z) (req : VoteRequest)
  (pid : Z) (a : string) (p : Proposal) (v : Vote) :
  params_id req = Some pid →
  body_voterAddress req = Some a →
  case_variant (vote_voterAddress v) a →
  (∀ s : DatabaseStorage.state,
     votes_lowercase s →
     DatabaseStorage.getProposal s pid = Some p →
     v ∈ DatabaseStorage.getVotes s pid →
     ∃ j, postVotes insertVoteSchema s now req = (s, {| status := 400; json := j |}))
  ∧ (∀ s : MemStorage.state,
       MemStorage.getProposal s pid = Some p → proposal_id p = pid →
       v ∈ MemStorage.getVotes s pid →
       ∃ j, postVotes insertVoteSchema s now req = (s, {| status := 400; json := j |})).
Proof.
  intros Hid Ha Hcv. split.
  - intros s Hlow Hp Hv.
    destruct (validateVote insertVoteSchema req) as [d|] eqn:Hd.
    + apply validateVote_Some in Hd as Hd'. destruct Hd' as (Hd1 & Hd2 & _).
      rewrite Hid in Hd1. rewrite Ha in Hd2.
      injection Hd1 as ->. injection Hd2 as ->.
      eexists. apply (postVotes_hasVoted _ _ _ _ d p Hd); [done|].
      simpl. rewrite (db_getProposal_id _ _ _ Hp).
      by apply (db_hasVoted_case_variant _ _ _ v).
    + eexists. by apply postVotes_invalid.
  - intros s Hp Hpid Hv.
    destruct (validateVote insertVoteSchema req) as [d|] eqn:Hd.
    + apply validateVote_Some in Hd as Hd'. destruct Hd' as (Hd1 & Hd2 & _).
      rewrite Hid in Hd1. rewrite Ha in Hd2.
      injection Hd1 as ->. injection Hd2 as ->.
      eexists. apply (postVotes_hasVoted _ _ _ _ d p Hd); [done|].
      simpl. rewrite Hpid.
      by apply (mem_hasVoted_case_variant _ _ _ v).
    + eexists. by apply postVotes_invalid.
Qed.

Lemma postVotes_second_vote_same_id_witness :
  (∃ j, postVotes (λ _, true) db_one_vote 5000 second_vote
        = (db_one_vote, {| status := 400; json := j |}))
  ∧ (∃ j, postVotes (λ _, true) mem_one_vote 5000 second_vote
          = (mem_one_vote, {| status := 400; json := j |})).
Proof.
  assert (Hcv : case_variant (vote_voterAddress sample_vote) "0XABC1").
  { apply case_variant_lower. reflexivity. }
  destruct (postVotes_second_vote_same_id (λ _, true) 5000 second_vote 1 "0XABC1"
              sample_proposal sample_vote eq_refl eq_refl Hcv) as [Hdb Hmem].
  split.
  - apply Hdb.
    + repeat constructor.
    + reflexivity.
    + vm_compute. constructor.
  - apply Hmem.
    + reflexivity.
    + reflexivity.
    + vm_compute. constructor.
Defined.

(** C2, in the in-memory store after [updateProposal(1, { id: 9 })]: the
    proposal is stored under 1 with [id] 9.  The handler looks the proposal
    up under the id of the request, asks [hasVoted] under the [id] of the
    record and lets [addVote] write under the id of the request: the voter
    of proposal 1 votes again and is answered 201, proposal 1 has two votes
    of that voter and its [votesNo] has moved. *)
Theorem postVotes_accepts_second_vote :
  let s := run (UpdateProposal 1 proposal_patch_id) mem_one_vote in
  reachable s
  ∧ (proposal_id <$> MemStorage.getProposal s 1) = Some 9
  ∧ MemStorage.hasVoted s 1 "0XABC1" = true
  ∧ vote_voterAddress <$> MemStorage.getVotes s 1 = ["0xabc1"%string]
  ∧ (proposal_votesNo <$> MemStorage.getProposal s 1) = Some (Some 0)
  ∧ let '(s', r) := postVotes (λ _, true) s 5000 second_vote in
    status r = 201
    ∧ vote_voterAddress <$> MemStorage.getVotes s' 1 = ["0xabc1"; "0XABC1"]%string
    ∧ (proposal_votesNo <$> MemStorage.getProposal s' 1) = Some (Some 1).
Proof.
  intros s. split.
  - exact (reachable_run _ _
             (reachable_run (AddVote (vote_body 1 "0xabc1" true)) _
                (reachable_run
                   (CreateProposal 1000 (proposal_body 1 "buy a water tank" 2000))
                   _ reachable_new))).
  - repeat split; reflexivity.
Qed.

(** ** Users: [POST /api/users] *)

Lemma find_app_fresh {A} (f : A → bool) (l : list A) (x : A) :
  existsb f l = false → f x = true → List.find f (l ++ [x]) = Some x.
Proof.
  induction l as [|y l IH]; simpl; intros Hl Hx.
  - by rewrite Hx.
  - apply orb_false_iff in Hl as [Hy Hl]. rewrite Hy. by apply IH.
Qed.

(** The relational [createUser] followed by [getUser], for an address that
    fits the 42 characters of the column and any case variant of it. *)
Lemma db_getUser_createUser s now d s' r a' :
  (String.length (iu_address d) ≤ 42)%nat →
  DatabaseStorage.createUser s now d = Ok (s', r) →
  case_variant a' (iu_address d) →
  DatabaseStorage.getUser s' a' = Some r.
Proof.
  intros Hfit Hc Hcv. apply case_variant_lower in Hcv.
  unfold DatabaseStorage.createUser, DatabaseStorage.insert_users in Hc.
  simpl in Hc. rewrite (varchar_lower_fits _ _ Hfit) in Hc. simpl in Hc.
  destruct (existsb (λ u, user_id u =? _) _); [discriminate|]. simpl in Hc.
  destruct (existsb (λ u, String.eqb (user_address u) _) _) eqn:Hu; [discriminate|].
  injection Hc as <- <-. unfold DatabaseStorage.getUser. simpl.
  rewrite Hcv. apply find_app_fresh; [done|]. simpl. apply String.eqb_refl.
Qed.

(** C9.  [POST /api/users] with a valid body: when a user is stored for the
    body's address (looked up in lower case) the handler answers with that
    record and writes nothing; and whatever user record a first request is
    answered with, a second request with the same body is answered with
    the same record, status 200, and writes nothing.  The in-memory store
    always answers the first request with a record; the relational store
    does so unless the insert is rejected, and the second half is for an
    address that fits the 42 characters of the column. *)
Theorem postUsers_idempotent
  (insertUserSchema : InsertUser → bool) (body : option InsertUser)
  (d : InsertUser) (now now' : Z) :
  validateUser insertUserSchema body = Some d →
  (∀ s : MemStorage.state,
     (∀ u, MemStorage.getUser s (iu_address d) = Some u →
           postUsers insertUserSchema s now body
           = (s, {| status := 200; json := UserJson u |}))
     ∧ let '(s1, r1) := postUsers insertUserSchema s now body in
       ∃ u, json r1 = UserJson u
            ∧ MemStorage.getUser s1 (iu_address d) = Some u
            ∧ postUsers insertUserSchema s1 now' body
              = (s1, {| status := 200; json := UserJson u |}))
  ∧ (∀ s : DatabaseStorage.state,
       (∀ u, DatabaseStorage.getUser s (iu_address d) = Some u →
             postUsers insertUserSchema s now body
             = (s, {| status := 200; json := UserJson u |}))
       ∧ ((String.length (iu_address d) ≤ 42)%nat →
          let '(s1, r1) := postUsers insertUserSchema s now body in
          ∀ u, json r1 = UserJson u →
               DatabaseStorage.getUser s1 (iu_address d) = Some u
               ∧ postUsers insertUserSchema s1 now' body
                 = (s1, {| status := 200; json := UserJson u |}))).
Proof.
  intros Hv. split.
  - intros s. split.
    + intros u Hu. by apply (postUsers_existing _ _ _ _ d).
    + pose proof (postUsers_again insertUserSchema s now now' body d Hv) as Hagain.
      assert (Hjson : ∃ u, json (postUsers insertUserSchema s now body).2 = UserJson u).
      { unfold postUsers. rewrite Hv.
        destruct (getUser s (iu_address d)); simpl; eauto. }
      destruct (postUsers insertUserSchema s now body) as [s1 r1]. simpl in *.
      destruct Hjson as [u Hu]. exists u. split; [done|].
      apply Hagain; [|done].
      intros s' r [= <- <-]. apply mem_getUser_createUser, case_variant_refl.
  - intros s. split.
    + intros u Hu. by apply (postUsers_existing _ _ _ _ d).
    + intros Hfit.
      pose proof (postUsers_again insertUserSchema s now now' body d Hv) as Hagain.
      destruct (postUsers insertUserSchema s now body) as [s1 r1]. simpl in *.
      apply Hagain. intros s' r Hc.
      apply (db_getUser_createUser s now d s' r); [done | done | apply case_variant_refl].
Qed.

Lemma postUsers_idempotent_witness :
  (let '(s1, r1) :=
     postUsers (λ _, true) MemStorage.new 1000 (Some (user_body "0xAbC1")) in
   ∃ u, json r1 = UserJson u
        ∧ postUsers (λ _, true) s1 2000 (Some (user_body "0xAbC1"))
          = (s1, {| status := 200; json := UserJson u |}))
  ∧ (let '(s1, r1) :=
       postUsers (λ _, true) DatabaseStorage.empty 1000 (Some (user_body "0xAbC1")) in
     status r1 = 201
     ∧ ∀ u, json r1 = UserJson u →
            postUsers (λ _, true) s1 2000 (Some (user_body "0xAbC1"))
            = (s1, {| status := 200; json := UserJson u |})).
Proof.
  destruct (postUsers_idempotent (λ _, true) (Some (user_body "0xAbC1"))
              (user_body "0xAbC1") 1000 2000 eq_refl) as [Hmem Hdb].
  split.
  - destruct (Hmem MemStorage.new) as [_ Hm].
    destruct (postUsers (λ _, true) MemStorage.new 1000 (Some (user_body "0xAbC1")))
      as [s1 r1].
    destruct Hm as (u & Hu & _ & Hagain). by exists u.
  - destruct (Hdb DatabaseStorage.empty) as [_ Hd].
    assert (Hfit : (String.length (iu_address (user_body "0xAbC1")) ≤ 42)%nat)
      by (vm_compute; lia).
    specialize (Hd Hfit).
    assert (Hst : status (postUsers (λ _, true) DatabaseStorage.empty 1000
                            (Some (user_body "0xAbC1"))).2 = 201) by reflexivity.
    destruct (postUsers (λ _, true) DatabaseStorage.empty 1000
                (Some (user_body "0xAbC1"))) as [s1 r1].
    split; [exact Hst|]. intros u Hu. by apply Hd.
Defined.

(** ** Records that a call drops *)

(** [createProposal] resets the vote list of the id it allocates,
    [createLoan] the guarantor list, [createGroup] the member list and the
    proposal index. *)
Lemma mem_create_resets_lists (s : MemStorage.state) :
  (∀ now d, MemStorage.getVotes (MemStorage.createProposal s now d).1
              (MemStorage.cur_proposal (MemStorage.currentIds s)) = [])
  ∧ (∀ now d, MemStorage.getLoanGuarantors (MemStorage.createLoan s now d).1
                (MemStorage.cur_loan (MemStorage.currentIds s)) = [])
  ∧ (∀ d a, MemStorage.isGroupMember (MemStorage.createGroup s d).1
              (MemStorage.cur_group (MemStorage.currentIds s)) a
            = same_address (ig_admin d) a).
Proof.
  repeat split.
  - intros now d. unfold MemStorage.getVotes. simpl. by rewrite lookup_insert_eq.
  - intros now d. unfold MemStorage.getLoanGuarantors. simpl.
    by rewrite lookup_insert_eq.
  - intros d a. unfold MemStorage.isGroupMember.
    pose proof (mem_createGroup_members s d) as Hm.
    change (group_id (MemStorage.createGroup s d).2)
      with (MemStorage.cur_group (MemStorage.currentIds s)) in Hm.
    rewrite Hm. simpl. apply orb_false_r.
Qed.

(** C8, at a vote that is cast for proposal 1 before proposal 1 exists:
    [createProposal] then allocates id 1 and drops the vote.  The same
    happens to a guarantor of loan 1 under [createLoan], and to a member
    and to the listing of a proposal of group 1 under [createGroup]. *)
Theorem create_drops_earlier_records :
  (let s1 := run (AddVote (vote_body 1 "0xa1" true)) MemStorage.new in
   let s2 := run (CreateProposal 1000 (proposal_body 1 "buy a water tank" 2000)) s1 in
   MemStorage.getVotes s1 1
   = [ {| vote_id := 1; vote_proposalId := 1; vote_voterAddress := "0xa1";
          vote_vote := true |} ]
   ∧ MemStorage.hasVoted s1 1 "0xa1" = true
   ∧ MemStorage.getVotes s2 1 = []
   ∧ MemStorage.hasVoted s2 1 "0xa1" = false)
  ∧ (let s1 := run (AddGuarantor {| igu_loanId := 1; igu_guarantorAddress := "0xa1";
                                    igu_approved := None |}) MemStorage.new in
     let s2 := run (CreateLoan 1000 {| il_borrowerAddress := "0xb2"; il_amount := 50;
                                       il_dueDate := 2000; il_repaid := None;
                                       il_approved := None; il_defaulted := None |}) s1 in
     length (MemStorage.getLoanGuarantors s1 1) = 1%nat
     ∧ MemStorage.getLoanGuarantors s2 1 = [])
  ∧ (let s1 := run (AddGroupMember {| im_groupId := 1; im_memberAddress := "0xa1" |})
                 MemStorage.new in
     let s2 := run (CreateGroup {| ig_name := "savers"; ig_admin := "0xb2" |}) s1 in
     MemStorage.isGroupMember s1 1 "0xa1" = true
     ∧ MemStorage.isGroupMember s2 1 "0xa1" = false)
  ∧ (let s1 := run (CreateProposal 1000 (proposal_body 1 "buy a water tank" 2000))
                 MemStorage.new in
     let s2 := run (CreateGroup {| ig_name := "savers"; ig_admin := "0xb2" |}) s1 in
     length (MemStorage.getGroupProposals s1 1) = 1%nat
     ∧ MemStorage.getGroupProposals s2 1 = []).
Proof. repeat split. Qed.

(** ** Records that every call keeps *)

Lemma is_Some_insert_mono `{Countable K} {V} (m : gmap K V) k k' v :
  is_Some (m !! k) → is_Some (<[k' := v]> m !! k).
Proof.
  intros Hk. destruct (decide (k' = k)) as [->|Hne].
  - rewrite lookup_insert_eq. eauto.
  - by rewrite lookup_insert_ne.
Qed.

Lemma is_Some_oset_mono {V} (m : list (Z * V)) k k' v :
  is_Some (OMap.get k m) → is_Some (OMap.get k (OMap.set k' v m)).
Proof.
  intros Hk. rewrite omap_get_set. destruct (decide (k' = k)); eauto.
Qed.

Lemma prefix_insert_app `{Countable K} {V} (m : gmap K (list V)) k k' x :
  default [] (m !! k)
  `prefix_of` default [] (<[k' := default [] (m !! k') ++ [x]]> m !! k).
Proof.
  destruct (decide (k' = k)) as [->|Hne].
  - rewrite lookup_insert_eq. simpl. by apply prefix_app_r.
  - by rewrite lookup_insert_ne.
Qed.

Ltac run_cases c :=
  destruct c; simpl; try done;
  cbv beta delta
    [MemStorage.updateUser MemStorage.updateGroup MemStorage.updateLoan
     MemStorage.updateProposal MemStorage.updateGuarantor MemStorage.addVote
     MemStorage.getUser MemStorage.getGroup MemStorage.getLoan
     MemStorage.getProposal MemStorage.getVotes MemStorage.getLoanGuarantors];
  simpl;
  repeat match goal with
  | |- context [match ?x with Some _ => _ | None => _ end] =>
      destruct x eqn:?; simpl
  end.

(** No call empties a key: an address under which [getUser] finds a record
    before a call, or an id under which [getGroup], [getLoan] or
    [getProposal] does, has a record after it.  (The record may be another
    one: [createUser] on a stored address and the updates replace it.)  And
    the activity log of a group only grows at its end. *)
Lemma run_keeps_keyed_records (c : call) (s : MemStorage.state) :
  (∀ a, is_Some (MemStorage.getUser s a) → is_Some (MemStorage.getUser (run c s) a))
  ∧ (∀ id, is_Some (MemStorage.getGroup s id) →
           is_Some (MemStorage.getGroup (run c s) id))
  ∧ (∀ id, is_Some (MemStorage.getLoan s id) →
           is_Some (MemStorage.getLoan (run c s) id))
  ∧ (∀ id, is_Some (MemStorage.getProposal s id) →
           is_Some (MemStorage.getProposal (run c s) id))
  ∧ (∀ g, default [] (MemStorage.activities s !! g)
          `prefix_of` default [] (MemStorage.activities (run c s) !! g)).
Proof.
  repeat split.
  - intros a. unfold MemStorage.getUser at 1 2.
    run_cases c; try done; apply is_Some_insert_mono.
  - intros id. unfold MemStorage.getGroup at 1 2.
    run_cases c; try done; apply is_Some_oset_mono.
  - intros id. unfold MemStorage.getLoan at 1 2.
    run_cases c; try done; apply is_Some_insert_mono.
  - intros id. unfold MemStorage.getProposal at 1 2.
    run_cases c; try done; apply is_Some_insert_mono.
  - intros g. run_cases c; try done. apply prefix_insert_app.
Qed.

Lemma prefix_oset_app {V} (m : list (Z * list V)) k k' x :
  default [] (OMap.get k m)
  `prefix_of` default [] (OMap.get k (OMap.set k' (default [] (OMap.get k' m) ++ [x]) m)).
Proof.
  rewrite omap_get_set. destruct (decide (k' = k)) as [->|Hne]; [|done].
  simpl. by apply prefix_app_r.
Qed.

Lemma prefix_fmap {A B} (f : A → B) (l1 l2 : list A) :
  l1 `prefix_of` l2 → f <$> l1 `prefix_of` f <$> l2.
Proof. intros [k ->]. exists (f <$> k). apply fmap_app. Qed.

(** The votes of a proposal, the guarantors of a loan (by id), the members
    and the proposal index of a group only grow at the end, except under
    the id that [createProposal], [createLoan] or [createGroup] allocates
    in the call; the loan index of a borrower only grows. *)
Lemma run_keeps_listed_records (c : call) (s : MemStorage.state) :
  (∀ pid,
     (∀ now d, c = CreateProposal now d →
               pid ≠ MemStorage.cur_proposal (MemStorage.currentIds s)) →
     MemStorage.getVotes s pid `prefix_of` MemStorage.getVotes (run c s) pid)
  ∧ (∀ lid,
       (∀ now d, c = CreateLoan now d →
                 lid ≠ MemStorage.cur_loan (MemStorage.currentIds s)) →
       guarantor_id <$> MemStorage.getLoanGuarantors s lid
       `prefix_of` guarantor_id <$> MemStorage.getLoanGuarantors (run c s) lid)
  ∧ (∀ gid,
       (∀ d, c = CreateGroup d →
             gid ≠ MemStorage.cur_group (MemStorage.currentIds s)) →
       default [] (OMap.get gid (MemStorage.groupMembers s))
       `prefix_of` default [] (OMap.get gid (MemStorage.groupMembers (run c s)))
       ∧ default [] (MemStorage.proposalsByGroup s !! gid)
         `prefix_of` default [] (MemStorage.proposalsByGroup (run c s) !! gid))
  ∧ (∀ a, default [] (MemStorage.loansByBorrower s !! a)
          `prefix_of` default [] (MemStorage.loansByBorrower (run c s) !! a)).
Proof.
  split; [|split; [|split; [|]]].
  - intros pid Hfresh. unfold MemStorage.getVotes at 1 2.
    run_cases c; try done; try apply prefix_insert_app.
    rewrite lookup_insert_ne; [done|].
    intros Heq. by apply (Hfresh now proposal).
  - intros lid Hfresh. unfold MemStorage.getLoanGuarantors at 1 2.
    run_cases c; try done.
    + rewrite lookup_insert_ne; [done|].
      intros Heq. by apply (Hfresh now loan).
    + apply prefix_fmap, prefix_insert_app.
    + destruct (decide (loanId = lid)) as [->|Hne].
      * rewrite lookup_insert_eq. simpl.
        rewrite list_fmap_insert. simpl.
        rewrite list_insert_id; [done|].
        rewrite list_lookup_fmap.
        match goal with H : _ !! _ = Some _ |- _ => by rewrite H end.
      * by rewrite lookup_insert_ne.
  - intros gid Hfresh. split.
    + run_cases c; try done; try apply prefix_oset_app.
      rewrite omap_get_set_eq. simpl.
      assert (Hne : MemStorage.cur_group (MemStorage.currentIds s) ≠ gid).
      { intros Heq. by apply (Hfresh group). }
      by rewrite !omap_get_set_ne.
    + run_cases c; try done; try apply prefix_insert_app.
      rewrite lookup_insert_ne; [done|].
      intros Heq. by apply (Hfresh group).
  - intros a. run_cases c; try done. apply prefix_insert_app.
Qed.

Lemma run_keeps_listed_records_witness :
  MemStorage.getVotes mem_one_vote 1
  `prefix_of` MemStorage.getVotes
                (run (CreateProposal 3000 (proposal_body 1 "plant trees" 4000))
                   mem_one_vote) 1.
Proof.
  apply (run_keeps_listed_records
           (CreateProposal 3000 (proposal_body 1 "plant trees" 4000)) mem_one_vote).
  intros now d _. vm_compute. discriminate.
Defined.

(** ** Further properties of the two stores *)

(** The relational [addVote] rejects every vote ([db_addVote_rejects]); so,
    wired to the relational store, [POST /api/proposals/:id/votes] never
    answers 201 and leaves every table with the rows it had (the sequence
    of [votes] may have moved on). *)
Theorem postVotes_db_never_created
  (insertVoteSchema : InsertVote → bool) (s : DatabaseStorage.state) (now : Z)
  (req : VoteRequest) :
  same_rows s (postVotes insertVoteSchema s now req).1
  ∧ status (postVotes insertVoteSchema s now req).2 ≠ 201.
Proof.
  unfold postVotes.
  destruct (validateVote _ _) as [d|]; simpl; [|by split].
  destruct (DatabaseStorage.getProposal _ _) as [p|]; simpl; [|by split].
  destruct (DatabaseStorage.hasVoted _ _ _); simpl; [by split|].
  destruct (db_addVote_rejects s d) as [e He]. rewrite He. by split.
Qed.

(** The relational [createUser] then [getUser], with any case variant of an
    address that fits the column. *)
Theorem db_createUser_getUser_any_case
  (s s' : DatabaseStorage.state) (now : Z) (d : InsertUser) (r : User) (a' : string) :
  (String.length (iu_address d) ≤ 42)%nat →
  DatabaseStorage.createUser s now d = Ok (s', r) →
  case_variant a' (iu_address d) →
  DatabaseStorage.getUser s' a' = Some r.
Proof. apply db_getUser_createUser. Qed.

Lemma db_createUser_getUser_any_case_witness :
  ∃ s' r,
    DatabaseStorage.createUser DatabaseStorage.empty 1000 (user_body "0xAbC1")
    = Ok (s', r)
    ∧ user_address r = "0xabc1"
    ∧ DatabaseStorage.getUser s' "0XABC1" = Some r.
Proof.
  eexists _, _. split; [reflexivity|]. split; [reflexivity|].
  apply (db_createUser_getUser_any_case DatabaseStorage.empty _ 1000
           (user_body "0xAbC1")).
  - vm_compute; lia.
  - reflexivity.
  - apply case_variant_lower. reflexivity.
Defined.

(** * More of the storage layer *)

(** ** Updates in the in-memory store *)

Lemma omap_set_same {V} (m : list (Z * V)) k v :
  OMap.get k m = Some v → OMap.set k v m = m.
Proof.
  induction m as [|[k' v'] r IH]; simpl; [done|].
  destruct (decide (k = k')) as [->|Hne]; [by intros [= ->]|].
  intros Hr. by rewrite IH.
Qed.

Lemma omap_set_fresh {V} (m : list (Z * V)) k v :
  OMap.get k m = None → OMap.set k v m = m ++ [(k, v)].
Proof.
  induction m as [|[k' v'] r IH]; simpl; [done|].
  destruct (decide (k = k')) as [->|Hne]; [done|].
  intros Hr. by rewrite IH.
Qed.

(** [updateLoan], [updateGroup] and [updateProposal] on a stored id: the
    stored record with the payload's keys laid over it is returned and is
    what the getter finds from then on, under the same key even when the
    payload changes the record's [id]; every other key keeps its record. *)
Theorem update_then_get (s : MemStorage.state) (id : Z) :
  (∀ l d, MemStorage.getLoan s id = Some l →
     let '(s', r) := MemStorage.updateLoan s id d in
     r = Some (spread_loan l d)
     ∧ MemStorage.getLoan s' id = r
     ∧ ∀ id', id' ≠ id → MemStorage.getLoan s' id' = MemStorage.getLoan s id')
  ∧ (∀ g d, MemStorage.getGroup s id = Some g →
       let '(s', r) := MemStorage.updateGroup s id d in
       r = Some (spread_group g d)
       ∧ MemStorage.getGroup s' id = r
       ∧ ∀ id', id' ≠ id → MemStorage.getGroup s' id' = MemStorage.getGroup s id')
  ∧ (∀ p d, MemStorage.getProposal s id = Some p →
       let '(s', r) := MemStorage.updateProposal s id d in
       r = Some (spread_proposal p d)
       ∧ MemStorage.getProposal s' id = r
       ∧ ∀ id', id' ≠ id →
           MemStorage.getProposal s' id' = MemStorage.getProposal s id').
Proof.
  split; [|split].
  - intros l d Hl. unfold MemStorage.updateLoan. rewrite Hl.
    unfold MemStorage.getLoan. simpl. split; [done|].
    split; [apply lookup_insert_eq|]. intros id' Hne. by apply lookup_insert_ne.
  - intros g d Hg. unfold MemStorage.updateGroup. rewrite Hg.
    unfold MemStorage.getGroup. simpl. split; [done|].
    split; [apply omap_get_set_eq|]. intros id' Hne. by apply omap_get_set_ne.
  - intros p d Hp. unfold MemStorage.updateProposal. rewrite Hp.
    unfold MemStorage.getProposal. simpl. split; [done|].
    split; [apply lookup_insert_eq|]. intros id' Hne. by apply lookup_insert_ne.
Qed.

Lemma update_then_get_witness :
  let s := (MemStorage.createProposal MemStorage.new 1000
              (proposal_body 1 "buy a water tank" 2000)).1 in
  let '(s', r) := MemStorage.updateProposal s 1 proposal_patch_executed in
  (proposal_executed <$> r) = Some (Some true)
  ∧ MemStorage.getProposal s' 1 = r.
Proof.
  intros s.
  destruct (update_then_get s 1) as (_ & _ & Hp).
  specialize (Hp _ proposal_patch_executed eq_refl).
  destruct (MemStorage.updateProposal s 1 proposal_patch_executed) as [s' r].
  destruct Hp as (-> & Hget & _). split; [reflexivity | exact Hget].
Defined.

(** [updateUser] finds the user under any case variant of the address and
    keeps the record under the lower-case key; a payload that changes the
    record's [address] does not move it, and no other user is touched. *)
Theorem updateUser_any_case (s : MemStorage.state) (a a' : string)
  (d : PartialUser) (u : User) :
  case_variant a' a →
  MemStorage.getUser s a = Some u →
  let '(s', r) := MemStorage.updateUser s a' d in
  r = Some (spread_user u d)
  ∧ (∀ a'', case_variant a'' a → MemStorage.getUser s' a'' = r)
  ∧ (∀ b, ¬ case_variant b a → MemStorage.getUser s' b = MemStorage.getUser s b).
Proof.
  intros Hcv Hu. apply case_variant_lower in Hcv.
  unfold MemStorage.updateUser, MemStorage.getUser in *.
  rewrite Hcv, Hu. simpl. split; [done|]. split.
  - intros a'' Hcv''. apply case_variant_lower in Hcv''.
    rewrite Hcv''. apply lookup_insert_eq.
  - intros b Hb. apply lookup_insert_ne. intros Heq. apply Hb.
    by apply case_variant_lower.
Qed.

Lemma updateUser_any_case_witness :
  let s := (MemStorage.createUser MemStorage.new (user_body "0xAbC1")).1 in
  let '(s', r) := MemStorage.updateUser s "0XABC1" (joined_payload 7) in
  (user_groupId <$> r) = Some (Some 7)
  ∧ MemStorage.getUser s' "0xabc1" = r.
Proof.
  intros s.
  assert (Hcv : case_variant "0XABC1" "0xAbC1") by (apply case_variant_lower; reflexivity).
  pose proof (updateUser_any_case s "0xAbC1" "0XABC1" (joined_payload 7) _ Hcv eq_refl)
    as Hup.
  destruct (MemStorage.updateUser s "0XABC1" (joined_payload 7)) as [s' r].
  destruct Hup as (-> & Hget & _). split; [reflexivity|].
  apply Hget. apply case_variant_lower. reflexivity.
Defined.

(** An update whose payload has no key stores what was stored: the store
    is the same afterwards. *)
Theorem update_with_empty_payload (s : MemStorage.state) :
  (∀ id l, MemStorage.getLoan s id = Some l →
     MemStorage.updateLoan s id
       {| pl_id := None; pl_borrowerAddress := None; pl_amount := None;
          pl_dueDate := None; pl_repaid := None; pl_approved := None;
          pl_defaulted := None; pl_createdAt := None |} = (s, Some l))
  ∧ (∀ id g, MemStorage.getGroup s id = Some g →
       MemStorage.updateGroup s id
         {| pg_id := None; pg_name := None; pg_admin := None;
            pg_totalDeposits := None; pg_totalLoaned := None |} = (s, Some g))
  ∧ (∀ id p, MemStorage.getProposal s id = Some p →
       MemStorage.updateProposal s id
         {| pp_id := None; pp_groupId := None; pp_description := None;
            pp_votesYes := None; pp_votesNo := None; pp_deadline := None;
            pp_executed := None; pp_createdAt := None |} = (s, Some p))
  ∧ (∀ a u, MemStorage.getUser s a = Some u →
       MemStorage.updateUser s a
         {| pu_id := None; pu_address := None; pu_groupId := None;
            pu_totalDeposits := None; pu_creditScore := None;
            pu_lastDepositTime := None; pu_registered := None;
            pu_isDefaulted := None |} = (s, Some u)).
Proof.
  destruct s as [us gs gms ls lbb gus ps pbg vs acts ids].
  split; [|split; [|split]].
  - intros id [] Hl. unfold MemStorage.updateLoan, MemStorage.getLoan in *.
    simpl in *. rewrite Hl. unfold MemStorage.set_loans, spread_loan. simpl.
    by rewrite insert_id.
  - intros id [] Hg. unfold MemStorage.updateGroup, MemStorage.getGroup in *.
    simpl in *. rewrite Hg. unfold MemStorage.set_groups, spread_group. simpl.
    by rewrite omap_set_same.
  - intros id [] Hp. unfold MemStorage.updateProposal, MemStorage.getProposal in *.
    simpl in *. rewrite Hp. unfold MemStorage.set_proposals, spread_proposal. simpl.
    by rewrite insert_id.
  - intros a [] Hu. unfold MemStorage.updateUser, MemStorage.getUser in *.
    simpl in *. rewrite Hu. unfold MemStorage.set_users, spread_user. simpl.
    by rewrite insert_id.
Qed.

Lemma update_with_empty_payload_witness :
  MemStorage.updateProposal mem_one_vote 1
    {| pp_id := None; pp_groupId := None; pp_description := None;
       pp_votesYes := None; pp_votesNo := None; pp_deadline := None;
       pp_executed := None; pp_createdAt := None |}
  = (mem_one_vote, Some sample_proposal).
Proof.
  destruct (update_with_empty_payload mem_one_vote) as (_ & _ & Hp & _).
  apply Hp. reflexivity.
Defined.

(** ** Identifiers are handed out once *)

Lemma fresh_ids_new : fresh_ids MemStorage.new.
Proof.
  split; simpl; try (intros ? [? ?]; done); try (intros ? ?; by rewrite lookup_empty);
    try done.
  constructor.
Qed.

Lemma Forall_lt_succ {A} (f : A → Z) (n : Z) (l : list A) :
  Forall (λ x, f x < n) l → Forall (λ x, f x < n + 1) l.
Proof. intros H. eapply Forall_impl; [exact H|]. intros; simpl in *; lia. Qed.

Lemma omap_set_keys_same {V} (m : list (Z * V)) k v :
  is_Some (OMap.get k m) → (OMap.set k v m).*1 = m.*1.
Proof.
  induction m as [|[k' v'] r IH]; simpl; [by intros [? ?]|].
  destruct (decide (k = k')) as [->|Hne]; [done|].
  intros Hr. cbn. f_equal. by apply IH.
Qed.

Lemma omap_get_None_keys {V} (m : list (Z * V)) k :
  OMap.get k m = None → k ∉ m.*1.
Proof.
  induction m as [|[k' v'] r IH]; simpl; [intros _ Hin; inversion Hin|].
  destruct (decide (k = k')) as [->|Hne]; [done|].
  intros Hr Hin. cbn in Hin. apply elem_of_cons in Hin as [->|Hin]; [done|].
  by apply IH.
Qed.

Lemma omap_set_keys_NoDup {V} (m : list (Z * V)) k v :
  NoDup m.*1 → NoDup (OMap.set k v m).*1.
Proof.
  intros Hm. destruct (OMap.get k m) as [v'|] eqn:Hk.
  - by rewrite omap_set_keys_same by eauto.
  - rewrite omap_set_fresh by done. rewrite fmap_app. simpl.
    apply NoDup_app. split; [done|]. split; [|apply NoDup_singleton].
    intros k' Hin ->%list_elem_of_singleton.
    by apply (omap_get_None_keys m k).
Qed.

Ltac fresh_step :=
  repeat match goal with
  | H : is_Some (<[_ := _]> _ !! _) |- _ =>
      rewrite lookup_insert_is_Some in H; destruct H as [<- | [? H]]
  | H : <[_ := _]> _ !! _ = Some _ |- _ =>
      apply lookup_insert_Some in H; destruct H as [[<- <-] | [? H]]
  | H : is_Some (OMap.get _ (OMap.set _ _ _)) |- _ =>
      rewrite omap_get_set in H; case_decide; [subst|]
  | H : OMap.get _ (OMap.set _ _ _) = Some _ |- _ =>
      rewrite omap_get_set in H; case_decide; [subst; injection H as <-|]
  end.

Ltac fresh_solve Hg Hl Hp :=
  first
  [ lia
  | by repeat apply omap_set_keys_NoDup
  | by constructor
  | by eauto
  | by apply Forall_lt_succ; eauto
  | match goal with
    | H : is_Some _ |- _ =>
        first [apply Hg in H | apply Hl in H | apply Hp in H]; lia
    end
  | (rewrite ?omap_get_set_eq; simpl; apply Forall_app; split;
     [ match goal with
       | |- Forall _ (default [] ?x) =>
           destruct x eqn:?; simpl; [by apply Forall_lt_succ; eauto | by constructor]
       | |- Forall _ [] => by constructor
       end
     | by repeat constructor; simpl; lia ]) ].

Lemma fresh_ids_run (c : call) (s : MemStorage.state) :
  fresh_ids s → fresh_ids (run c s).
Proof.
  intros [Hg Hl Hp Hlb Hpg Hm Hgu Hv Ha Hnd].
  destruct c; simpl; try (by split).
  all: cbv beta delta
    [MemStorage.updateUser MemStorage.updateGroup MemStorage.updateLoan
     MemStorage.updateProposal MemStorage.updateGuarantor MemStorage.addVote
     MemStorage.getUser MemStorage.getGroup MemStorage.getLoan
     MemStorage.getProposal]; simpl.
  all: repeat match goal with
       | |- context [match ?x with Some _ => _ | None => _ end] =>
           destruct x eqn:?; simpl
       end; try (by split).
  all: split; simpl; try done; intros; fresh_step.
  all: try fresh_solve Hg Hl Hp.
  - rewrite omap_get_set_eq. simpl. repeat constructor. simpl. lia.
  - assert (Hall : Forall (λ g0, guarantor_id g0
                              < MemStorage.cur_guarantor (MemStorage.currentIds s))
                     (default [] (MemStorage.guarantors s !! loanId))).
    { destruct (MemStorage.guarantors s !! loanId) eqn:E; simpl; [eauto | constructor]. }
    apply Forall_insert; [done|]. simpl.
    match goal with
    | H : _ !! _ = Some g |- _ => apply (Forall_lookup_1 _ _ _ _ Hall H)
    end.
Qed.

(** Every state the store can be in keeps its identifiers below the
    counters. *)
Lemma reachable_fresh_ids (s : MemStorage.state) : reachable s → fresh_ids s.
Proof.
  induction 1 as [|c s _ IH]; [apply fresh_ids_new | by apply fresh_ids_run].
Qed.

Lemma reachable_mem_one_vote : reachable mem_one_vote.
Proof.
  exact (reachable_run (AddVote (vote_body 1 "0xabc1" true)) _
           (reachable_run (CreateProposal 1000 (proposal_body 1 "buy a water tank" 2000))
              _ reachable_new)).
Defined.

Lemma not_Some_fresh `{Countable K} {V} (m : gmap K V) (k : K) (P : K → Prop) :
  (∀ id, is_Some (m !! id) → P id) → ¬ P k → m !! k = None.
Proof.
  intros Hm Hk. destruct (m !! k) eqn:E; [|done]. destruct Hk. apply Hm. eauto.
Qed.

(** In every state the store can be in, [createLoan], [createGroup] and
    [createProposal] store the new record under an id that held nothing,
    and every record that was stored stays as it was. *)
Theorem create_never_overwrites (s : MemStorage.state) :
  reachable s →
  (∀ now d,
     let '(s', l) := MemStorage.createLoan s now d in
     MemStorage.getLoan s (loan_id l) = None
     ∧ MemStorage.getLoan s' (loan_id l) = Some l
     ∧ ∀ id l0, MemStorage.getLoan s id = Some l0 → MemStorage.getLoan s' id = Some l0)
  ∧ (∀ d,
       let '(s', g) := MemStorage.createGroup s d in
       MemStorage.getGroup s (group_id g) = None
       ∧ MemStorage.getGroup s' (group_id g) = Some g
       ∧ MemStorage.getGroups s' = MemStorage.getGroups s ++ [g]
       ∧ ∀ id g0, MemStorage.getGroup s id = Some g0 →
                  MemStorage.getGroup s' id = Some g0)
  ∧ (∀ now d,
       let '(s', p) := MemStorage.createProposal s now d in
       MemStorage.getProposal s (proposal_id p) = None
       ∧ MemStorage.getProposal s' (proposal_id p) = Some p
       ∧ ∀ id p0, MemStorage.getProposal s id = Some p0 →
                  MemStorage.getProposal s' id = Some p0).
Proof.
  intros Hr. apply reachable_fresh_ids in Hr as [Hg Hl Hp _ _ _ _ _ _ _].
  split; [|split].
  - intros now d. unfold MemStorage.getLoan. simpl.
    assert (Hnone : MemStorage.loans s !! MemStorage.cur_loan (MemStorage.currentIds s)
                    = None).
    { apply (not_Some_fresh _ _ _ Hl). lia. }
    split; [done|]. split; [apply lookup_insert_eq|].
    intros id l0 Hid. rewrite lookup_insert_ne; [done|]. congruence.
  - intros d. unfold MemStorage.getGroup, MemStorage.getGroups. simpl.
    assert (Hnone : OMap.get (MemStorage.cur_group (MemStorage.currentIds s))
                      (MemStorage.groups s) = None).
    { destruct (OMap.get _ (MemStorage.groups s)) eqn:E; [|done].
      assert (Hlt := Hg _ (ltac:(eauto) : is_Some _)). lia. }
    split; [done|]. split; [apply omap_get_set_eq|]. split.
    + rewrite omap_set_fresh by done. unfold OMap.values. by rewrite fmap_app.
    + intros id g0 Hid. rewrite omap_get_set_ne; [done|]. congruence.
  - intros now d. unfold MemStorage.getProposal. simpl.
    assert (Hnone : MemStorage.proposals s
                    !! MemStorage.cur_proposal (MemStorage.currentIds s) = None).
    { apply (not_Some_fresh _ _ _ Hp). lia. }
    split; [done|]. split; [apply lookup_insert_eq|].
    intros id p0 Hid. rewrite lookup_insert_ne; [done|]. congruence.
Qed.

Lemma create_never_overwrites_witness :
  let '(s', p) :=
    MemStorage.createProposal mem_one_vote 3000 (proposal_body 1 "plant trees" 4000) in
  proposal_id p = 2
  ∧ MemStorage.getProposal s' 2 = Some p
  ∧ MemStorage.getProposal s' 1 = Some sample_proposal.
Proof.
  destruct (create_never_overwrites mem_one_vote reachable_mem_one_vote)
    as (_ & _ & Hp).
  specialize (Hp 3000 (proposal_body 1 "plant trees" 4000)).
  assert (Hid : proposal_id (MemStorage.createProposal mem_one_vote 3000
                               (proposal_body 1 "plant trees" 4000)).2 = 2)
    by reflexivity.
  destruct (MemStorage.createProposal mem_one_vote 3000
              (proposal_body 1 "plant trees" 4000)) as [s' p].
  destruct Hp as (_ & Hnew & Hold). simpl in Hid.
  split; [exact Hid|]. split; [by rewrite <- Hid|].
  apply Hold. reflexivity.
Defined.

Lemma default_Forall {A} (P : A → Prop) (o : option (list A)) :
  (∀ l, o = Some l → Forall P l) → Forall P (default [] o).
Proof. destruct o; simpl; [eauto | constructor]. Qed.

(** In every state the store can be in, the id that [addGroupMember],
    [addGuarantor], [addVote] or [addActivity] gives its record is the id
    of no member, guarantor, vote or activity stored before. *)
Theorem listed_ids_are_new (s : MemStorage.state) :
  reachable s →
  (∀ d g m, m ∈ default [] (OMap.get g (MemStorage.groupMembers s)) →
     member_id m ≠ member_id (MemStorage.addGroupMember s d).2)
  ∧ (∀ d l g, g ∈ MemStorage.getLoanGuarantors s l →
       guarantor_id g ≠ guarantor_id (MemStorage.addGuarantor s d).2)
  ∧ (∀ d p v, v ∈ MemStorage.getVotes s p →
       vote_id v ≠ vote_id (MemStorage.addVote s d).2)
  ∧ (∀ now d g a, a ∈ default [] (MemStorage.activities s !! g) →
       activity_id a ≠ activity_id (MemStorage.addActivity s now d).2).
Proof.
  intros Hr. apply reachable_fresh_ids in Hr as [_ _ _ _ _ Hm Hgu Hv Ha _].
  split; [|split; [|split]].
  - intros d g m Hin. simpl.
    pose proof (default_Forall _ _ (Hm g)) as Hall.
    rewrite Forall_forall in Hall. specialize (Hall m Hin). simpl in Hall. lia.
  - intros d l g Hin. simpl.
    pose proof (default_Forall _ _ (Hgu l)) as Hall.
    rewrite Forall_forall in Hall. specialize (Hall g Hin). simpl in Hall. lia.
  - intros d p v Hin. rewrite mem_addVote_record. simpl.
    pose proof (default_Forall _ _ (Hv p)) as Hall.
    rewrite Forall_forall in Hall. specialize (Hall v Hin). simpl in Hall. lia.
  - intros now d g a Hin. simpl.
    pose proof (default_Forall _ _ (Ha g)) as Hall.
    rewrite Forall_forall in Hall. specialize (Hall a Hin). simpl in Hall. lia.
Qed.

Lemma listed_ids_are_new_witness :
  vote_id sample_vote
  ≠ vote_id (MemStorage.addVote mem_one_vote (vote_body 1 "0xd4" false)).2.
Proof.
  destruct (listed_ids_are_new mem_one_vote reachable_mem_one_vote) as (_ & _ & Hv & _).
  apply (Hv _ 1). vm_compute. constructor.
Defined.

Lemma omap_lookup_insert_fresh {V} (m : gmap Z V) (new : Z) (v : V) (ids : list Z) :
  Forall (λ id, id < new) ids →
  omap (λ id, <[new := v]> m !! id) ids = omap (λ id, m !! id) ids.
Proof.
  induction 1 as [|id ids Hid _ IH]; csimpl; [done|].
  rewrite lookup_insert_ne by lia. by rewrite IH.
Qed.

(** In every state the store can be in, [getUserLoans] after [createLoan]
    is what it was with the new loan at the end, for every case variant of
    the borrower's address, and what it was for every other address;
    [getGroupProposals] after [createProposal] likewise, by group. *)
Theorem create_then_list (s : MemStorage.state) :
  reachable s →
  (∀ now d a,
     let '(s', l) := MemStorage.createLoan s now d in
     (case_variant a (il_borrowerAddress d) →
        MemStorage.getUserLoans s' a = MemStorage.getUserLoans s a ++ [l])
     ∧ (¬ case_variant a (il_borrowerAddress d) →
          MemStorage.getUserLoans s' a = MemStorage.getUserLoans s a))
  ∧ (∀ now d g,
       let '(s', p) := MemStorage.createProposal s now d in
       (g = ip_groupId d →
          MemStorage.getGroupProposals s' g = MemStorage.getGroupProposals s g ++ [p])
       ∧ (g ≠ ip_groupId d →
            MemStorage.getGroupProposals s' g = MemStorage.getGroupProposals s g)).
Proof.
  intros Hr. apply reachable_fresh_ids in Hr as [_ _ _ Hlb Hpg _ _ _ _ _].
  split.
  - intros now d a. unfold MemStorage.getUserLoans, MemStorage.getLoan. simpl. split.
    + intros Hcv%case_variant_lower. rewrite Hcv, lookup_insert_eq. simpl.
      rewrite omap_app. simpl. rewrite lookup_insert_eq. simpl. f_equal.
      apply omap_lookup_insert_fresh, default_Forall, Hlb.
    + intros Hcv. rewrite lookup_insert_ne.
      * apply omap_lookup_insert_fresh, default_Forall, Hlb.
      * intros Heq. apply Hcv. by apply case_variant_lower.
  - intros now d g. unfold MemStorage.getGroupProposals, MemStorage.getProposal.
    simpl. split.
    + intros ->. rewrite lookup_insert_eq. simpl.
      rewrite omap_app. simpl. rewrite lookup_insert_eq. simpl. f_equal.
      apply omap_lookup_insert_fresh, default_Forall, Hpg.
    + intros Hne. rewrite lookup_insert_ne by done.
      apply omap_lookup_insert_fresh, default_Forall, Hpg.
Qed.

Lemma create_then_list_witness :
  let '(s', p) :=
    MemStorage.createProposal mem_one_vote 3000 (proposal_body 1 "plant trees" 4000) in
  MemStorage.getGroupProposals s' 1 = [sample_proposal; p]
  ∧ MemStorage.getGroupProposals s' 2 = [].
Proof.
  destruct (create_then_list mem_one_vote reachable_mem_one_vote) as [_ Hp].
  pose proof (Hp 3000 (proposal_body 1 "plant trees" 4000) 1) as H1.
  pose proof (Hp 3000 (proposal_body 1 "plant trees" 4000) 2) as H2.
  destruct (MemStorage.createProposal mem_one_vote 3000
              (proposal_body 1 "plant trees" 4000)) as [s' p].
  destruct H1 as [H1 _]. destruct H2 as [_ H2]. split.
  - rewrite H1 by reflexivity. reflexivity.
  - rewrite H2; [reflexivity | discriminate].
Defined.

(** ** Membership and votes are seen at once, in any case *)

Lemma same_address_case_variant a b : same_address a b = true ↔ case_variant a b.
Proof.
  unfold same_address. rewrite String.eqb_eq. symmetry. apply case_variant_lower.
Qed.

Lemma mem_check_after_write (s : MemStorage.state) (g : Z) (a : string) :
  (∀ d, MemStorage.isGroupMember (MemStorage.addGroupMember s d).1 g a
        = MemStorage.isGroupMember s g a
          || bool_decide (g = im_groupId d) && same_address (im_memberAddress d) a)
  ∧ (∀ d, MemStorage.hasVoted (MemStorage.addVote s d).1 g a
          = MemStorage.hasVoted s g a
            || bool_decide (g = iv_proposalId d) && same_address (iv_voterAddress d) a).
Proof.
  split.
  - intros d. unfold MemStorage.isGroupMember. simpl. rewrite omap_get_set.
    case_decide as Hg; subst; simpl.
    + rewrite bool_decide_eq_true_2 by done. rewrite existsb_app. simpl.
      by rewrite orb_false_r.
    + rewrite bool_decide_eq_false_2 by done. simpl. by rewrite orb_false_r.
  - intros d. unfold MemStorage.hasVoted.
    assert (Hv : MemStorage.votes (MemStorage.addVote s d).1
                 = <[iv_proposalId d :=
                       default [] (MemStorage.votes s !! iv_proposalId d)
                       ++ [(MemStorage.addVote s d).2]]> (MemStorage.votes s)).
    { unfold MemStorage.addVote, MemStorage.updateProposal, MemStorage.getProposal.
      simpl. by destruct (MemStorage.proposals s !! iv_proposalId d). }
    rewrite Hv, mem_addVote_record. rewrite lookup_insert.
    case_decide as Hg; subst; simpl.
    + rewrite bool_decide_eq_true_2 by done. rewrite existsb_app. simpl.
      by rewrite orb_false_r.
    + rewrite bool_decide_eq_false_2 by done. simpl. by rewrite orb_false_r.
Qed.

(** [MemStorage]: after [addGroupMember] the members of a group are those
    it had, and the address written, in any case, for the group written to;
    after [addVote] the voters of a proposal are those it had, and the
    voter written, in any case, for the proposal voted on. *)
Theorem check_after_write (s : MemStorage.state) (g : Z) (a : string) :
  (∀ d, MemStorage.isGroupMember (MemStorage.addGroupMember s d).1 g a = true
        ↔ MemStorage.isGroupMember s g a = true
          ∨ (g = im_groupId d ∧ case_variant a (im_memberAddress d)))
  ∧ (∀ d, MemStorage.hasVoted (MemStorage.addVote s d).1 g a = true
          ↔ MemStorage.hasVoted s g a = true
            ∨ (g = iv_proposalId d ∧ case_variant a (iv_voterAddress d))).
Proof.
  split; intros d.
  - rewrite (proj1 (mem_check_after_write s g a)).
    rewrite orb_true_iff, andb_true_iff, bool_decide_eq_true.
    rewrite same_address_case_variant.
    split; (intros [?|[? ?]]; [by left|right; split; [done|by apply case_variant_sym]]).
  - rewrite (proj2 (mem_check_after_write s g a)).
    rewrite orb_true_iff, andb_true_iff, bool_decide_eq_true.
    rewrite same_address_case_variant.
    split; (intros [?|[? ?]]; [by left|right; split; [done|by apply case_variant_sym]]).
Qed.

(** ** [updateGuarantor] *)

Lemma findIndex_None {A} (f : A → bool) (l : list A) :
  Forall (λ x, f x = false) l → findIndex f l = None.
Proof.
  induction 1 as [|x l Hx _ IH]; simpl; [done|]. by rewrite Hx, IH.
Qed.

Lemma findIndex_Some {A} (f : A → bool) (l : list A) :
  Exists (λ x, f x = true) l →
  ∃ before x after,
    l = before ++ x :: after
    ∧ Forall (λ y, f y = false) before
    ∧ f x = true
    ∧ findIndex f l = Some (length before).
Proof.
  induction l as [|y l IH]; intros Hex; [by apply Exists_nil in Hex|].
  destruct (f y) eqn:Hy.
  - exists [], y, l. simpl. by rewrite Hy.
  - apply Exists_cons in Hex as [Hex|Hex]; [congruence|].
    destruct (IH Hex) as (before & x & after & -> & Hb & Hx & Hi).
    exists (y :: before), x, after. simpl. rewrite Hy, Hi. repeat split; try done.
    by constructor.
Qed.

Lemma same_address_false a b : same_address a b = false ↔ ¬ case_variant a b.
Proof.
  rewrite <- same_address_case_variant. by destruct (same_address a b).
Qed.

Lemma mem_updateGuarantor_first
  (s : MemStorage.state) (loanId : Z) (a : string) (approved : bool) :
  let gs := MemStorage.getLoanGuarantors s loanId in
  let '(s', r) := MemStorage.updateGuarantor s loanId a approved in
  (Forall (λ g, ¬ case_variant (guarantor_guarantorAddress g) a) gs →
     s' = s ∧ r = None)
  ∧ (Exists (λ g, case_variant (guarantor_guarantorAddress g) a) gs →
       ∃ before g after,
         gs = before ++ g :: after
         ∧ Forall (λ g, ¬ case_variant (guarantor_guarantorAddress g) a) before
         ∧ case_variant (guarantor_guarantorAddress g) a
         ∧ r = Some (DatabaseStorage.set_approved approved g)
         ∧ MemStorage.getLoanGuarantors s' loanId
           = before ++ DatabaseStorage.set_approved approved g :: after)
  ∧ (∀ l, l ≠ loanId →
       MemStorage.getLoanGuarantors s' l = MemStorage.getLoanGuarantors s l).
Proof.
  intros gs.
  destruct (MemStorage.updateGuarantor s loanId a approved) as [s' r] eqn:E.
  unfold MemStorage.updateGuarantor in E.
  fold (MemStorage.getLoanGuarantors s loanId) in E. fold gs in E.
  split; [|split].
  - intros Hno.
    rewrite findIndex_None in E; [by inversion E|].
    eapply Forall_impl; [exact Hno|]. intros g. by rewrite same_address_false.
  - intros Hex.
    destruct (findIndex_Some (λ g, same_address (guarantor_guarantorAddress g) a) gs)
      as (before & g & after & Hgs & Hb & Hg & Hi).
    { eapply Exists_impl; [exact Hex|]. intros g. by rewrite same_address_case_variant. }
    rewrite Hi in E.
    assert (Hl : gs !! length before = Some g).
    { rewrite Hgs. by rewrite list_lookup_middle. }
    rewrite Hl in E. inversion E; subst s' r; clear E.
    exists before, g, after. repeat split; try done.
    + eapply Forall_impl; [exact Hb|]. intros x. by rewrite same_address_false.
    + by apply same_address_case_variant.
    + unfold MemStorage.getLoanGuarantors at 1. simpl. rewrite lookup_insert_eq. simpl.
      rewrite Hgs. by rewrite insert_app_r_alt, Nat.sub_diag by lia.
  - intros l Hl.
    destruct (findIndex _ gs) as [i|]; [|by inversion E].
    destruct (gs !! i); inversion E; subst s' r; [|done].
    unfold MemStorage.getLoanGuarantors. simpl. by rewrite lookup_insert_ne.
Qed.

(** [MemStorage.updateGuarantor] looks among the guarantors of the loan for
    the first whose address is a case variant of the one given.  When there
    is none the store is left as it is and the result is [undefined];
    otherwise that guarantor, and no later one with the same address, gets
    the flag, and the guarantors of the other loans stay as they are. *)
Theorem updateGuarantor_first_match
  (s : MemStorage.state) (loanId : Z) (a : string) (approved : bool) :
  let gs := MemStorage.getLoanGuarantors s loanId in
  let '(s', r) := MemStorage.updateGuarantor s loanId a approved in
  (Forall (λ g, ¬ case_variant (guarantor_guarantorAddress g) a) gs →
     s' = s ∧ r = None)
  ∧ (Exists (λ g, case_variant (guarantor_guarantorAddress g) a) gs →
       ∃ before g after,
         gs = before ++ g :: after
         ∧ Forall (λ g, ¬ case_variant (guarantor_guarantorAddress g) a) before
         ∧ case_variant (guarantor_guarantorAddress g) a
         ∧ r = Some (DatabaseStorage.set_approved approved g)
         ∧ MemStorage.getLoanGuarantors s' loanId
           = before ++ DatabaseStorage.set_approved approved g :: after)
  ∧ (∀ l, l ≠ loanId →
       MemStorage.getLoanGuarantors s' l = MemStorage.getLoanGuarantors s l).
Proof. apply mem_updateGuarantor_first. Qed.



(** ** The members of a group and the group of a user *)

(** [getGroupMembers] lists the user records of a group's members.  In
    [MemStorage] a user is listed exactly when [getUser] returns it for some
    address that [isGroupMember] accepts for the group; in
    [DatabaseStorage] every such user is listed. *)
Theorem members_with_account_are_listed (g : Z) (u : User) :
  (∀ s, u ∈ MemStorage.getGroupMembers s g
        ↔ ∃ a, MemStorage.isGroupMember s g a = true
               ∧ MemStorage.getUser s a = Some u)
  ∧ (∀ s a, DatabaseStorage.isGroupMember s g a = true →
            DatabaseStorage.getUser s a = Some u →
            u ∈ DatabaseStorage.getGroupMembers s g).
Proof.
  split.
  - intros s. unfold MemStorage.getGroupMembers, MemStorage.isGroupMember.
    rewrite list_elem_of_omap. split.
    + intros (m & Hm & Hu). exists (member_memberAddress m). split; [|done].
      apply existsb_exists. exists m. split; [by apply list_elem_of_In|].
      apply same_address_refl.
    + intros (a & Hex & Hu). apply existsb_exists in Hex as (m & Hm & Hsame).
      exists m. split; [by apply list_elem_of_In|].
      unfold MemStorage.getUser in *. unfold same_address in Hsame.
      apply String.eqb_eq in Hsame. by rewrite Hsame.
  - intros s a Hex Hu. unfold DatabaseStorage.isGroupMember in Hex.
    apply existsb_exists in Hex as (m & Hm & Hhit).
    apply andb_true_iff in Hhit as [Hg Ha]. apply String.eqb_eq in Ha.
    unfold DatabaseStorage.getUser in Hu. apply find_some in Hu as [Hin Hua].
    apply String.eqb_eq in Hua.
    unfold DatabaseStorage.getGroupMembers. apply list_elem_of_In, in_flat_map.
    exists m. split.
    + apply filter_In. by split.
    + apply filter_In. split; [done|]. apply String.eqb_eq. congruence.
Qed.

Lemma omap_get_elem {V} (m : list (Z * V)) k v :
  NoDup m.*1 → (k, v) ∈ m → OMap.get k m = Some v.
Proof.
  induction m as [|[k' v'] r IH]; simpl; intros Hnd Hin; [by apply elem_of_nil in Hin|].
  cbn in Hnd. apply NoDup_cons in Hnd as [Hk' Hnd].
  apply elem_of_cons in Hin as [[= -> ->]|Hin].
  - by rewrite decide_True.
  - rewrite decide_False; [by apply IH|].
    intros ->. apply Hk'. apply list_elem_of_fmap. by exists (k', v).
Qed.

Lemma mem_getUserGroup_Some (s : MemStorage.state) a grp :
  NoDup (MemStorage.groupMembers s).*1 →
  MemStorage.getUserGroup s a = Some grp →
  ∃ gid, MemStorage.isGroupMember s gid a = true ∧ MemStorage.getGroup s gid = Some grp.
Proof.
  intros Hnd. unfold MemStorage.getUserGroup.
  destruct (find _ _) as [[gid ms]|] eqn:E; [|done].
  intros Hg. apply find_some in E as [Hin Hex]. simpl in Hex.
  exists gid. split; [|done]. unfold MemStorage.isGroupMember.
  rewrite (omap_get_elem _ _ ms Hnd); [done|by apply list_elem_of_In].
Qed.

Lemma db_no_membership (s : DatabaseStorage.state) a :
  (∀ gid, DatabaseStorage.isGroupMember s gid a = false) →
  List.filter (λ m, String.eqb (member_memberAddress m) (toLowerCase a))
    (DatabaseStorage.groupMembers s) = [].
Proof.
  unfold DatabaseStorage.isGroupMember.
  generalize (DatabaseStorage.groupMembers s) as ms.
  induction ms as [|m ms IH]; simpl; [done|]. intros Hno.
  pose proof (Hno (member_groupId m)) as Hm. rewrite Z.eqb_refl in Hm. simpl in Hm.
  apply orb_false_iff in Hm as [-> _]. apply IH. intros gid.
  specialize (Hno gid). by apply orb_false_iff in Hno as [_ ?].
Qed.

(** The group of a user.  In a store that [MemStorage] can be in,
    [getUserGroup] returns only a group that [isGroupMember] confirms for
    the address, and [undefined] for an address that is a member of no
    group; [DatabaseStorage] does the same on every database, and the group
    it returns is a stored row. *)
Theorem getUserGroup_of_member (a : string) :
  (∀ s, reachable s →
     (∀ grp, MemStorage.getUserGroup s a = Some grp →
        ∃ gid, MemStorage.isGroupMember s gid a = true
               ∧ MemStorage.getGroup s gid = Some grp)
     ∧ ((∀ gid, MemStorage.isGroupMember s gid a = false) →
          MemStorage.getUserGroup s a = None))
  ∧ (∀ s,
     (∀ grp, DatabaseStorage.getUserGroup s a = Some grp →
        DatabaseStorage.isGroupMember s (group_id grp) a = true
        ∧ grp ∈ DatabaseStorage.groups s)
     ∧ ((∀ gid, DatabaseStorage.isGroupMember s gid a = false) →
          DatabaseStorage.getUserGroup s a = None)).
Proof.
  split.
  - intros s Hs. pose proof (members_keys_once _ (reachable_fresh_ids s Hs)) as Hnd.
    split; [intros grp; by apply mem_getUserGroup_Some|].
    intros Hno. destruct (MemStorage.getUserGroup s a) as [grp|] eqn:E; [|done].
    apply mem_getUserGroup_Some in E as (gid & Hm & _); [|done].
    by rewrite Hno in Hm.
  - intros s. split.
    + intros grp. unfold DatabaseStorage.getUserGroup. intros Hh.
      assert (Hin : In grp
                (flat_map
                   (λ m, List.filter (λ g, member_groupId m =? group_id g)
                           (DatabaseStorage.groups s))
                   (List.filter
                      (λ m, String.eqb (member_memberAddress m) (toLowerCase a))
                      (DatabaseStorage.groupMembers s)))).
      { destruct (flat_map _ _); [done|]. simpl in Hh. injection Hh as ->. by left. }
      apply in_flat_map in Hin as (m & Hm & Hg).
      apply filter_In in Hm as [Hm Ha]. apply filter_In in Hg as [Hg Hid].
      split; [|by apply list_elem_of_In].
      unfold DatabaseStorage.isGroupMember. apply existsb_exists.
      exists m. split; [done|]. by rewrite Hid, Ha.
    + intros Hno. unfold DatabaseStorage.getUserGroup.
      by rewrite db_no_membership.
Qed.

Lemma reachable_mem_one_group : reachable mem_one_group.
Proof. exact (reachable_run _ _ reachable_new). Defined.

Lemma getUserGroup_of_member_witness :
  (∃ gid, MemStorage.isGroupMember mem_one_group gid "0XABC1" = true
          ∧ MemStorage.getGroup mem_one_group gid
            = MemStorage.getUserGroup mem_one_group "0XABC1")
  ∧ MemStorage.getUserGroup mem_one_group "0xdef2" = None.
Proof.
  split.
  - destruct (proj1 (proj1 (getUserGroup_of_member "0XABC1") mem_one_group
                       reachable_mem_one_group)
                _ eq_refl) as (gid & Hm & Hg).
    exists gid. split; [exact Hm|exact Hg].
  - apply (proj2 (proj1 (getUserGroup_of_member "0xdef2") mem_one_group
                    reachable_mem_one_group)).
    intros gid. unfold MemStorage.isGroupMember, mem_one_group. simpl.
    case_decide; reflexivity.
Defined.

Lemma find_oset {V} (f : Z * V → bool) (m : list (Z * V)) k v :
  (∀ e, e ∈ m → e.1 ≠ k → f e = false) →
  f (k, v) = true →
  List.find f (OMap.set k v m) = Some (k, v).
Proof.
  intros Hm Hkv. induction m as [|[k' v'] r IH]; simpl; [by rewrite Hkv|].
  destruct (decide (k = k')) as [->|Hne]; simpl; [by rewrite Hkv|].
  rewrite (Hm (k', v')); [|by left|simpl; congruence].
  apply IH. intros e He. apply Hm. by right.
Qed.

Lemma oset_elem_other {V} (m : list (Z * V)) k v e :
  e ∈ OMap.set k v m → e.1 ≠ k → e ∈ m.
Proof.
  induction m as [|[k' v'] r IH]; simpl.
  - intros ->%list_elem_of_singleton. simpl. congruence.
  - destruct (decide (k = k')) as [->|Hne].
    + intros [->|Hin]%elem_of_cons Hk; [simpl in Hk; congruence|by right].
    + intros [->|Hin]%elem_of_cons Hk; [by left|right; by apply IH].
Qed.

Lemma same_address_variant x a a' :
  case_variant a' a → same_address x a' = same_address x a.
Proof.
  intros Hcv%case_variant_lower. unfold same_address. by rewrite Hcv.
Qed.

Lemma existsb_pointwise {A} (f g : A → bool) (l : list A) :
  (∀ x, f x = g x) → existsb f l = existsb g l.
Proof. intros Hfg. induction l as [|x l IH]; simpl; [done|]. by rewrite Hfg, IH. Qed.

Lemma existsb_fresh {A} (f : A → Z) (n : Z) (l : list A) :
  Forall (λ r, f r < n) l → existsb (λ r, f r =? n) l = false.
Proof.
  induction 1 as [|x l Hx _ IH]; simpl; [done|].
  rewrite IH. rewrite orb_false_r. apply Z.eqb_neq. lia.
Qed.

Lemma filter_nil_existsb {A} (f : A → bool) (l : list A) :
  existsb f l = false → List.filter f l = [].
Proof.
  induction l as [|x l IH]; simpl; [done|].
  intros [-> Hl]%orb_false_iff. by apply IH.
Qed.

(** Whoever creates a group and was in none is, from then on, found in
    that group by [getUserGroup], under any case of the address: in
    [MemStorage] from every state it can be in, in [DatabaseStorage]
    whenever [createGroup] resolves for an admin of at most 42
    characters. *)
Theorem createGroup_then_getUserGroup (d : InsertGroup) (a' : string) :
  case_variant a' (ig_admin d) →
  (∀ s, reachable s →
     (∀ gid, MemStorage.isGroupMember s gid (ig_admin d) = false) →
     MemStorage.getUserGroup (MemStorage.createGroup s d).1 a'
     = Some (MemStorage.createGroup s d).2)
  ∧ (∀ s s' group,
       (String.length (ig_admin d) ≤ 42)%nat →
       (∀ gid, DatabaseStorage.isGroupMember s gid (ig_admin d) = false) →
       DatabaseStorage.createGroup s d = Ok (s', group) →
       DatabaseStorage.getUserGroup s' a' = Some group).
Proof.
  intros Hcv. split.
  - intros s Hs Hno.
    pose proof (members_keys_once _ (reachable_fresh_ids s Hs)) as Hnd.
    unfold MemStorage.getUserGroup, MemStorage.createGroup, MemStorage.addGroupMember.
    simpl. rewrite omap_get_set_eq. simpl.
    rewrite find_oset.
    + unfold MemStorage.getGroup. simpl. by rewrite omap_get_set_eq.
    + intros [gid ms] He Hk. simpl in *.
      apply oset_elem_other in He; [|done].
      rewrite (existsb_pointwise _ (λ m, same_address (member_memberAddress m) (ig_admin d)));
        [|intros m; by apply same_address_variant].
      specialize (Hno gid). unfold MemStorage.isGroupMember in Hno.
      by rewrite (omap_get_elem _ _ ms Hnd He) in Hno.
    + simpl. rewrite orb_false_r. apply same_address_case_variant.
      by apply case_variant_sym.
  - intros s s' group Hfit Hno.
    unfold DatabaseStorage.createGroup, DatabaseStorage.transaction,
      DatabaseStorage.insert_groups, DatabaseStorage.insert_groupMembers.
    rewrite (varchar_fits _ _ Hfit). simpl.
    destruct (existsb _ (DatabaseStorage.groups s)) eqn:Hpk; [discriminate|]. simpl.
    rewrite (varchar_lower_fits _ _ Hfit). simpl.
    destruct (existsb _ (DatabaseStorage.groupMembers s)); [discriminate|]. simpl.
    intros [= <- <-]. unfold DatabaseStorage.getUserGroup. simpl.
    apply case_variant_lower in Hcv. rewrite Hcv.
    rewrite List.filter_app, db_no_membership by done. simpl.
    rewrite String.eqb_refl. simpl.
    rewrite List.filter_app. simpl. rewrite Z.eqb_refl.
    rewrite filter_nil_existsb; [done|].
    rewrite <- Hpk. apply existsb_pointwise. intros g. simpl. apply Z.eqb_sym.
Qed.

Lemma createGroup_then_getUserGroup_witness :
  let d := group_body "savers" "0xAbC1" in
  MemStorage.getUserGroup (MemStorage.createGroup MemStorage.new d).1 "0XABC1"
  = Some (MemStorage.createGroup MemStorage.new d).2
  ∧ ∃ s' group,
      DatabaseStorage.createGroup DatabaseStorage.empty d = Ok (s', group)
      ∧ DatabaseStorage.getUserGroup s' "0XABC1" = Some group.
Proof.
  intros d.
  assert (Hcv : case_variant "0XABC1" (ig_admin d)).
  { apply case_variant_lower. reflexivity. }
  split.
  - apply (proj1 (createGroup_then_getUserGroup d "0XABC1" Hcv) _ reachable_new).
    intros gid. reflexivity.
  - eexists _, _. split; [reflexivity|].
    apply (proj2 (createGroup_then_getUserGroup d "0XABC1" Hcv) DatabaseStorage.empty);
      [vm_compute; lia | intros gid; reflexivity | reflexivity].
Defined.

(** ** The activity feed after a new activity *)





(** * More of the relational store *)

(** ** When the inserts resolve *)

Lemma find_None_existsb {A} (f : A → bool) (l : list A) :
  List.find f l = None → existsb f l = false.
Proof.
  induction l as [|x l IH]; simpl; [done|]. destruct (f x); [done|exact IH].
Qed.

Ltac db_resolve Hseq :=
  simpl; rewrite ?varchar_lower_fits, ?varchar_fits by done; simpl;
  rewrite (existsb_fresh _ _ _ Hseq); simpl.

Ltac db_fresh_after :=
  split; simpl; try done;
  (apply Forall_app; split;
   [by apply Forall_lt_succ | repeat constructor; simpl; lia]).

Lemma db_resolve_all (s : DatabaseStorage.state) :
  db_fresh_ids s →
  (∀ now d, (String.length (iu_address d) ≤ 42)%nat →
     DatabaseStorage.getUser s (iu_address d) = None →
     ∃ s' r, DatabaseStorage.createUser s now d = Ok (s', r) ∧ db_fresh_ids s'
             ∧ user_id r = DatabaseStorage.users_id_seq (DatabaseStorage.sequences s))
  ∧ (∀ d, (String.length (ig_admin d) ≤ 42)%nat →
       ∃ s' r, DatabaseStorage.createGroup s d = Ok (s', r) ∧ db_fresh_ids s'
               ∧ group_id r = DatabaseStorage.groups_id_seq (DatabaseStorage.sequences s))
  ∧ (∀ d, (String.length (im_memberAddress d) ≤ 42)%nat →
       ∃ s' r, DatabaseStorage.addGroupMember s d = Ok (s', r) ∧ db_fresh_ids s'
               ∧ member_id r
                 = DatabaseStorage.group_members_id_seq (DatabaseStorage.sequences s))
  ∧ (∀ now d, (String.length (il_borrowerAddress d) ≤ 42)%nat →
       ∃ s' r, DatabaseStorage.createLoan s now d = Ok (s', r) ∧ db_fresh_ids s'
               ∧ loan_id r = DatabaseStorage.loans_id_seq (DatabaseStorage.sequences s))
  ∧ (∀ d, (String.length (igu_guarantorAddress d) ≤ 42)%nat →
       ∃ s' r, DatabaseStorage.addGuarantor s d = Ok (s', r) ∧ db_fresh_ids s'
               ∧ guarantor_id r
                 = DatabaseStorage.guarantors_id_seq (DatabaseStorage.sequences s))
  ∧ (∀ now d,
       ∃ s' r, DatabaseStorage.createProposal s now d = Ok (s', r) ∧ db_fresh_ids s'
               ∧ proposal_id r
                 = DatabaseStorage.proposals_id_seq (DatabaseStorage.sequences s))
  ∧ (∀ now d, (String.length (ia_userAddress d) ≤ 42)%nat →
       (String.length (ia_activityType d) ≤ 50)%nat →
       ∃ s' r, DatabaseStorage.addActivity s now d = Ok (s', r) ∧ db_fresh_ids s'
               ∧ activity_id r
                 = DatabaseStorage.activities_id_seq (DatabaseStorage.sequences s)).
Proof.
  intros [Hu Hg Hm Hl Hgu Hp Hv Ha]. repeat split.
  - intros now d Hfit Hnone.
    unfold DatabaseStorage.createUser, DatabaseStorage.insert_users.
    db_resolve Hu.
    unfold DatabaseStorage.getUser in Hnone. rewrite (find_None_existsb _ _ Hnone).
    eexists _, _. split; [reflexivity|]. split; [|done]. db_fresh_after.
  - intros d Hfit.
    unfold DatabaseStorage.createGroup, DatabaseStorage.transaction,
      DatabaseStorage.insert_groups, DatabaseStorage.insert_groupMembers.
    db_resolve Hg. db_resolve Hm.
    eexists _, _. split; [reflexivity|]. split; [|done]. split; simpl; try done.
    all: apply Forall_app; split;
      [by apply Forall_lt_succ | repeat constructor; simpl; lia].
  - intros d Hfit.
    unfold DatabaseStorage.addGroupMember, DatabaseStorage.insert_groupMembers.
    db_resolve Hm.
    eexists _, _. split; [reflexivity|]. split; [|done]. db_fresh_after.
  - intros now d Hfit.
    unfold DatabaseStorage.createLoan, DatabaseStorage.insert_loans.
    db_resolve Hl.
    eexists _, _. split; [reflexivity|]. split; [|done]. db_fresh_after.
  - intros d Hfit.
    unfold DatabaseStorage.addGuarantor, DatabaseStorage.insert_guarantors.
    db_resolve Hgu.
    eexists _, _. split; [reflexivity|]. split; [|done]. db_fresh_after.
  - intros now d.
    unfold DatabaseStorage.createProposal, DatabaseStorage.insert_proposals.
    db_resolve Hp.
    eexists _, _. split; [reflexivity|]. split; [|done]. db_fresh_after.
  - intros now d Hfit Hty.
    unfold DatabaseStorage.addActivity, DatabaseStorage.insert_activities.
    db_resolve Ha.
    eexists _, _. split; [reflexivity|]. split; [|done]. db_fresh_after.
Qed.

(** On a database whose row ids are below their sequences, and whose
    sequences hold values of an [integer] column, every insert of
    [DatabaseStorage] other than [addVote] resolves when the address it is
    given fits the 42 characters of the column (and the activity type its
    50) and its numbers and dates are values of their columns ([int4],
    [common_era]), [createUser] when moreover no user has the address; the
    row returned has the next id of its sequence, and the database after it
    is again one whose ids are below their sequences. *)
Theorem db_inserts_resolve (s : DatabaseStorage.state) :
  db_fresh_ids s →
  int4_sequences s →
  (∀ now d, (String.length (iu_address d) ≤ 42)%nat →
     user_in_range d →
     DatabaseStorage.getUser s (iu_address d) = None →
     ∃ s' r, DatabaseStorage.createUser s now d = Ok (s', r) ∧ db_fresh_ids s'
             ∧ user_id r = DatabaseStorage.users_id_seq (DatabaseStorage.sequences s))
  ∧ (∀ d, (String.length (ig_admin d) ≤ 42)%nat →
       ∃ s' r, DatabaseStorage.createGroup s d = Ok (s', r) ∧ db_fresh_ids s'
               ∧ group_id r = DatabaseStorage.groups_id_seq (DatabaseStorage.sequences s))
  ∧ (∀ d, (String.length (im_memberAddress d) ≤ 42)%nat →
       int4 (im_groupId d) →
       ∃ s' r, DatabaseStorage.addGroupMember s d = Ok (s', r) ∧ db_fresh_ids s'
               ∧ member_id r
                 = DatabaseStorage.group_members_id_seq (DatabaseStorage.sequences s))
  ∧ (∀ now d, (String.length (il_borrowerAddress d) ≤ 42)%nat →
       int4 (il_amount d) → common_era (il_dueDate d) →
       ∃ s' r, DatabaseStorage.createLoan s now d = Ok (s', r) ∧ db_fresh_ids s'
               ∧ loan_id r = DatabaseStorage.loans_id_seq (DatabaseStorage.sequences s))
  ∧ (∀ d, (String.length (igu_guarantorAddress d) ≤ 42)%nat →
       int4 (igu_loanId d) →
       ∃ s' r, DatabaseStorage.addGuarantor s d = Ok (s', r) ∧ db_fresh_ids s'
               ∧ guarantor_id r
                 = DatabaseStorage.guarantors_id_seq (DatabaseStorage.sequences s))
  ∧ (∀ now d, int4 (ip_groupId d) → common_era (ip_deadline d) →
       ∃ s' r, DatabaseStorage.createProposal s now d = Ok (s', r) ∧ db_fresh_ids s'
               ∧ proposal_id r
                 = DatabaseStorage.proposals_id_seq (DatabaseStorage.sequences s))
  ∧ (∀ now d, (String.length (ia_userAddress d) ≤ 42)%nat →
       (String.length (ia_activityType d) ≤ 50)%nat →
       int4 (ia_groupId d) →
       ∃ s' r, DatabaseStorage.addActivity s now d = Ok (s', r) ∧ db_fresh_ids s'
               ∧ activity_id r
                 = DatabaseStorage.activities_id_seq (DatabaseStorage.sequences s)).
Proof.
  intros Hf _.
  destruct (db_resolve_all s Hf) as (Hu & Hg & Hm & Hl & Hgu & Hp & Ha).
  split; [intros now d Hfit _; apply Hu, Hfit|].
  split; [exact Hg|].
  split; [intros d Hfit _; apply Hm, Hfit|].
  split; [intros now d Hfit _ _; apply Hl, Hfit|].
  split; [intros d Hfit _; apply Hgu, Hfit|].
  split; [intros now d _ _; apply Hp|].
  intros now d Hfit Hty _. by apply Ha.
Qed.

Lemma db_fresh_ids_empty : db_fresh_ids DatabaseStorage.empty.
Proof. split; constructor. Qed.

Lemma int4_sequences_empty : int4_sequences DatabaseStorage.empty.
Proof. split; unfold int4; simpl; lia. Qed.

Lemma db_inserts_resolve_witness :
  (∃ s' r,
     DatabaseStorage.createGroup DatabaseStorage.empty (group_body "savers" "0xAbC1")
     = Ok (s', r)
     ∧ db_fresh_ids s' ∧ group_id r = 1)
  ∧ (∃ s' r,
       DatabaseStorage.createLoan DatabaseStorage.empty 1000 (loan_body "0xAbC1" 50 9000)
       = Ok (s', r)
       ∧ db_fresh_ids s' ∧ loan_id r = 1).
Proof.
  pose proof (db_inserts_resolve DatabaseStorage.empty db_fresh_ids_empty
                int4_sequences_empty) as (_ & Hg & _ & Hl & _).
  split.
  - destruct (Hg (group_body "savers" "0xAbC1") ltac:(vm_compute; lia))
      as (s' & r & Hc & Hf & Hid).
    exists s', r. split; [exact Hc|]. split; [exact Hf|exact Hid].
  - destruct (Hl 1000 (loan_body "0xAbC1" 50 9000) ltac:(vm_compute; lia)
                ltac:(unfold int4; simpl; lia) ltac:(unfold common_era; simpl; lia))
      as (s' & r & Hc & Hf & Hid).
    exists s', r. split; [exact Hc|]. split; [exact Hf|exact Hid].
Defined.

(** ** A second user with the same address *)

(** [DatabaseStorage.createUser] rejects an address, in any case, for which
    [getUser] finds a user: the column is [unique] and both store and look
    up the lower-case form.  The error is the unique violation when the
    address fits its column and the numbers of the user and the next id are
    values of theirs (a value outside its column is refused before the
    constraint is looked at). *)
Theorem db_createUser_rejects_duplicate
  (s : DatabaseStorage.state) (now : Z) (d : InsertUser) (a : string) (u : User) :
  (String.length (iu_address d) ≤ 42)%nat →
  user_in_range d →
  int4 (DatabaseStorage.users_id_seq (DatabaseStorage.sequences s)) →
  case_variant a (iu_address d) →
  DatabaseStorage.getUser s a = Some u →
  DatabaseStorage.createUser s now d = Throw UniqueViolation.
Proof.
  intros Hfit _ _ Hcv%case_variant_lower Hu.
  unfold DatabaseStorage.createUser, DatabaseStorage.insert_users. simpl.
  rewrite varchar_lower_fits by done. simpl.
  unfold DatabaseStorage.getUser in Hu. rewrite Hcv in Hu.
  assert (Hex : existsb (λ u0, String.eqb (user_address u0) (toLowerCase (iu_address d)))
                  (DatabaseStorage.users s) = true).
  { apply find_some in Hu as [Hin Ha]. apply existsb_exists. by exists u. }
  rewrite Hex. by rewrite orb_true_r.
Qed.

Lemma db_createUser_rejects_duplicate_witness :
  ∃ s' u,
    DatabaseStorage.createUser DatabaseStorage.empty 1000 (user_body "0xAbC1") = Ok (s', u)
    ∧ DatabaseStorage.createUser s' 2000 (user_body "0XABC1") = Throw UniqueViolation.
Proof.
  eexists _, _. split; [reflexivity|].
  eapply (db_createUser_rejects_duplicate _ 2000 (user_body "0XABC1") "0xabc1");
    [vm_compute; lia | by repeat split | unfold int4; simpl; lia
    | apply case_variant_lower; reflexivity | reflexivity].
Defined.

(** ** Reading back what was inserted *)

Lemma find_app_old {A} (f : A → bool) (l : list A) (x : A) :
  f x = false → List.find f (l ++ [x]) = List.find f l.
Proof.
  intros Hx. induction l as [|y l IH]; simpl; [by rewrite Hx|].
  by destruct (f y).
Qed.

Lemma find_app_new {A} (f : A → Z) (l : list A) (x : A) (id : Z) :
  existsb (λ r, f r =? f x) l = false →
  List.find (λ r, f r =? id) (l ++ [x])
  = if bool_decide (id = f x) then Some x else List.find (λ r, f r =? id) l.
Proof.
  intros Hpk. case_bool_decide as Hid.
  - subst id. apply find_app_fresh; [done|apply Z.eqb_refl].
  - apply find_app_old. apply Z.eqb_neq. congruence.
Qed.

(** Whenever [createGroup], [createLoan] or [createProposal] of
    [DatabaseStorage] resolves, the getter finds the returned row under its
    id, and under every other id what it found before. *)
Theorem db_create_then_get (s s' : DatabaseStorage.state) (id : Z) :
  (∀ d g, DatabaseStorage.createGroup s d = Ok (s', g) →
     DatabaseStorage.getGroup s' id
     = if bool_decide (id = group_id g) then Some g else DatabaseStorage.getGroup s id)
  ∧ (∀ now d l, DatabaseStorage.createLoan s now d = Ok (s', l) →
       DatabaseStorage.getLoan s' id
       = if bool_decide (id = loan_id l) then Some l else DatabaseStorage.getLoan s id)
  ∧ (∀ now d p, DatabaseStorage.createProposal s now d = Ok (s', p) →
       DatabaseStorage.getProposal s' id
       = if bool_decide (id = proposal_id p) then Some p
         else DatabaseStorage.getProposal s id).
Proof.
  repeat split.
  - intros d g.
    unfold DatabaseStorage.createGroup, DatabaseStorage.transaction,
      DatabaseStorage.insert_groups, DatabaseStorage.insert_groupMembers. simpl.
    destruct (DatabaseStorage.varchar 42 (ig_admin d)); simpl; [|discriminate].
    destruct (existsb _ (DatabaseStorage.groups s)) eqn:Hpk; simpl; [discriminate|].
    destruct (DatabaseStorage.varchar 42 _); simpl; [|discriminate].
    destruct (existsb _ (DatabaseStorage.groupMembers s)); simpl; [discriminate|].
    intros [= <- <-]. unfold DatabaseStorage.getGroup. simpl.
    by apply (find_app_new group_id).
  - intros now d l.
    unfold DatabaseStorage.createLoan, DatabaseStorage.insert_loans. simpl.
    destruct (DatabaseStorage.varchar 42 _); simpl; [|discriminate].
    destruct (existsb _ (DatabaseStorage.loans s)) eqn:Hpk; simpl; [discriminate|].
    intros [= <- <-]. unfold DatabaseStorage.getLoan. simpl.
    by apply (find_app_new loan_id).
  - intros now d p.
    unfold DatabaseStorage.createProposal, DatabaseStorage.insert_proposals. simpl.
    destruct (existsb _ (DatabaseStorage.proposals s)) eqn:Hpk; simpl; [discriminate|].
    intros [= <- <-]. unfold DatabaseStorage.getProposal. simpl.
    by apply (find_app_new proposal_id).
Qed.

(** Whenever an insert of [DatabaseStorage] resolves, the row is at the end
    of the list that it belongs to: a loan among its borrower's loans, under
    any case of the address; a guarantor among its loan's guarantors; a
    proposal among its group's proposals; a member is a member of its
    group, under any case of the address.  The other lists and memberships
    are as before.  Addresses are of at most 42 characters. *)
Theorem db_insert_then_list (s s' : DatabaseStorage.state) :
  (∀ now d l a, (String.length (il_borrowerAddress d) ≤ 42)%nat →
     DatabaseStorage.createLoan s now d = Ok (s', l) →
     DatabaseStorage.getUserLoans s' a
     = DatabaseStorage.getUserLoans s a
       ++ (if same_address (il_borrowerAddress d) a then [l] else []))
  ∧ (∀ d g loanId, DatabaseStorage.addGuarantor s d = Ok (s', g) →
       DatabaseStorage.getLoanGuarantors s' loanId
       = DatabaseStorage.getLoanGuarantors s loanId
         ++ (if bool_decide (loanId = igu_loanId d) then [g] else []))
  ∧ (∀ now d p groupId, DatabaseStorage.createProposal s now d = Ok (s', p) →
       DatabaseStorage.getGroupProposals s' groupId
       = DatabaseStorage.getGroupProposals s groupId
         ++ (if bool_decide (groupId = ip_groupId d) then [p] else []))
  ∧ (∀ d m groupId a, (String.length (im_memberAddress d) ≤ 42)%nat →
       DatabaseStorage.addGroupMember s d = Ok (s', m) →
       DatabaseStorage.isGroupMember s' groupId a
       = DatabaseStorage.isGroupMember s groupId a
         || bool_decide (groupId = im_groupId d)
            && same_address (im_memberAddress d) a).
Proof.
  repeat split.
  - intros now d l a Hfit Hc.
    destruct (db_createLoan_address _ _ _ _ _ Hfit Hc) as [Ha Hl].
    unfold DatabaseStorage.getUserLoans. rewrite Hl, List.filter_app. simpl.
    by rewrite Ha.
  - intros d g loanId.
    unfold DatabaseStorage.addGuarantor, DatabaseStorage.insert_guarantors. simpl.
    destruct (DatabaseStorage.varchar 42 _); simpl; [|discriminate].
    destruct (existsb _ (DatabaseStorage.guarantors s)); simpl; [discriminate|].
    intros [= <- <-]. unfold DatabaseStorage.getLoanGuarantors. simpl.
    rewrite List.filter_app. simpl. case_bool_decide as Hid.
    + subst. by rewrite Z.eqb_refl.
    + destruct (igu_loanId d =? loanId) eqn:E; [apply Z.eqb_eq in E; congruence|done].
  - intros now d p groupId.
    unfold DatabaseStorage.createProposal, DatabaseStorage.insert_proposals. simpl.
    destruct (existsb _ (DatabaseStorage.proposals s)); simpl; [discriminate|].
    intros [= <- <-]. unfold DatabaseStorage.getGroupProposals. simpl.
    rewrite List.filter_app. simpl. case_bool_decide as Hid.
    + subst. by rewrite Z.eqb_refl.
    + destruct (ip_groupId d =? groupId) eqn:E; [apply Z.eqb_eq in E; congruence|done].
  - intros d m groupId a Hfit Hc.
    destruct (db_addGroupMember_address _ _ _ _ Hfit Hc) as [Ha Hl].
    assert (Hg : member_groupId m = im_groupId d).
    { revert Hc. unfold DatabaseStorage.addGroupMember,
        DatabaseStorage.insert_groupMembers. simpl.
      destruct (DatabaseStorage.varchar 42 _); simpl; [|discriminate].
      destruct (existsb _ _); simpl; [discriminate|]. by intros [= <- <-]. }
    unfold DatabaseStorage.isGroupMember. rewrite Hl, existsb_app. simpl.
    rewrite Ha, Hg, orb_false_r. f_equal. f_equal.
    case_bool_decide as Hid.
    + subst. apply Z.eqb_refl.
    + apply Z.eqb_neq. congruence.
Qed.

(** * More of the route handlers *)





(** [POST /api/groups/:id/members], on [MemStorage], for a valid request
    that names a stored group whose [id] is the id it is stored under (as
    it is unless [updateGroup] was given another [id]; the handler checks
    membership under the [id] of the record and writes under the id of the
    request): an address that is already a member is refused with 400 and
    nothing is written; any other address is answered 201 with the new
    member record, is from then on a member under any case of the address,
    its user record, if it has one, carries the group and [registered], and
    the same request once more is refused with 400. *)
Theorem postMembers_joins_once
  (insertGroupMemberSchema : InsertGroupMember → bool) (s : MemStorage.state)
  (now now' : Z) (req : MemberRequest) (d : InsertGroupMember) (group : Group) :
  validateMember insertGroupMemberSchema req = Some d →
  MemStorage.getGroup s (im_groupId d) = Some group →
  group_id group = im_groupId d →
  (MemStorage.isGroupMember s (im_groupId d) (im_memberAddress d) = true →
     postMembers insertGroupMemberSchema s now req
     = (s, Refused 400 (Some "Already a member of this group"%string)))
  ∧ (MemStorage.isGroupMember s (im_groupId d) (im_memberAddress d) = false →
     ∃ s' m,
       postMembers insertGroupMemberSchema s now req = (s', Sent 201 m)
       ∧ member_groupId m = im_groupId d
       ∧ member_memberAddress m = im_memberAddress d
       ∧ (∀ a', case_variant a' (im_memberAddress d) →
            MemStorage.isGroupMember s' (im_groupId d) a' = true)
       ∧ MemStorage.getUser s' (im_memberAddress d)
         = (λ u, spread_user u (joined_payload (im_groupId d)))
             <$> MemStorage.getUser s (im_memberAddress d)
       ∧ postMembers insertGroupMemberSchema s' now' req
         = (s', Refused 400 (Some "Already a member of this group"%string))).
Proof.
  intros Hv Hg Hid. split.
  - intros Hm. unfold postMembers. rewrite Hv. simpl. by rewrite Hg, Hid, Hm.
  - intros Hm.
    assert (Hpost : ∀ s0 t,
              MemStorage.getGroup s0 (im_groupId d) = Some group →
              MemStorage.isGroupMember s0 (im_groupId d) (im_memberAddress d) = true →
              postMembers insertGroupMemberSchema s0 t req
              = (s0, Refused 400 (Some "Already a member of this group"%string))).
    { intros s0 t Hg0 Hm0. unfold postMembers. rewrite Hv. simpl.
      by rewrite Hg0, Hid, Hm0. }
    unfold postMembers at 1. rewrite Hv. simpl. rewrite Hg, Hid, Hm.
    set (s1 := MemStorage.set_groupMembers _ _).
    unfold MemStorage.updateUser.
    change (MemStorage.getUser s1 (im_memberAddress d))
      with (MemStorage.getUser s (im_memberAddress d)).
    assert (Hin : MemStorage.isGroupMember (MemStorage.addGroupMember s d).1
                    (im_groupId d) (im_memberAddress d) = true).
    { rewrite (proj1 (mem_check_after_write s _ _)).
      rewrite bool_decide_eq_true_2 by done. rewrite same_address_refl.
      apply orb_true_r. }
    destruct (MemStorage.getUser s (im_memberAddress d)) as [u|] eqn:Eu; simpl.
    + eexists _, _. split; [reflexivity|]. split; [done|]. split; [done|].
      split; [|split].
      * intros a' Hcv. unfold MemStorage.isGroupMember. simpl.
        rewrite omap_get_set_eq. simpl. rewrite existsb_app. simpl.
        apply case_variant_sym, same_address_case_variant in Hcv. rewrite Hcv.
        rewrite orb_true_r. done.
      * unfold MemStorage.getUser. simpl. by rewrite lookup_insert_eq.
      * apply Hpost; [exact Hg|exact Hin].
    + eexists _, _. split; [reflexivity|]. split; [done|]. split; [done|].
      split; [|split].
      * intros a' Hcv. unfold MemStorage.isGroupMember. simpl.
        rewrite omap_get_set_eq. simpl. rewrite existsb_app. simpl.
        apply case_variant_sym, same_address_case_variant in Hcv. rewrite Hcv.
        rewrite orb_true_r. done.
      * exact Eu.
      * apply Hpost; [exact Hg|exact Hin].
Qed.

Lemma postMembers_joins_once_witness :
  let req := {| member_params_id := Some 1; body_memberAddress := Some "0xdef2"%string |} in
  ∃ s' m,
    postMembers (λ _, true) mem_one_group 2000 req = (s', Sent 201 m)
    ∧ MemStorage.isGroupMember s' 1 "0XDEF2" = true
    ∧ postMembers (λ _, true) s' 3000 req
      = (s', Refused 400 (Some "Already a member of this group"%string)).
Proof.
  intros req.
  destruct (proj2 (postMembers_joins_once (λ _, true) mem_one_group 2000 3000 req
                     {| im_groupId := 1; im_memberAddress := "0xdef2" |}
                     (MemStorage.createGroup MemStorage.new
                        (group_body "savers" "0xAbC1")).2
                     eq_refl eq_refl eq_refl) eq_refl)
    as (s' & m & Hp & _ & _ & Hm & _ & Hagain).
  exists s', m. split; [exact Hp|]. split; [|exact Hagain].
  apply Hm. apply case_variant_lower. reflexivity.
Defined.

(** ** Loans and their guarantors *)

Lemma mem_addGuarantors (addrs : list string) :
  ∀ (s : MemStorage.state) (loanId : Z),
    ∃ s' gs,
      addGuarantors s loanId addrs = (s', true)
      ∧ MemStorage.getLoanGuarantors s' loanId
        = MemStorage.getLoanGuarantors s loanId ++ gs
      ∧ map guarantor_guarantorAddress gs = addrs
      ∧ Forall (λ g, guarantor_approved g = Some false ∧ guarantor_loanId g = loanId) gs
      ∧ MemStorage.users s' = MemStorage.users s
      ∧ MemStorage.loans s' = MemStorage.loans s
      ∧ MemStorage.activities s' = MemStorage.activities s.
Proof.
  induction addrs as [|a rest IH]; intros s loanId.
  - exists s, []. simpl. by rewrite app_nil_r.
  - simpl.
    destruct (IH (MemStorage.addGuarantor s
                    {| igu_loanId := loanId; igu_guarantorAddress := a;
                       igu_approved := Some (Some false) |}).1 loanId)
      as (s' & gs & Hadd & Hgs & Hmap & Hall & Hu & Hl & Ha).
    exists s', ((MemStorage.addGuarantor s
                   {| igu_loanId := loanId; igu_guarantorAddress := a;
                      igu_approved := Some (Some false) |}).2 :: gs).
    split; [exact Hadd|]. split; [|split; [|split]].
    + rewrite Hgs. unfold MemStorage.getLoanGuarantors at 1. simpl.
      rewrite lookup_insert_eq. simpl. by rewrite <- app_assoc.
    + simpl. by rewrite Hmap.
    + constructor; [done|exact Hall].
    + by rewrite Hu, Hl, Ha.
Qed.

(** [POST /api/loans] on [MemStorage], with a body that the schema admits:
    the answer is 201 with the new loan; [GET /api/loans/:id] then shows the
    loan with one guarantor, not yet approved, for each address of the
    request, in the order given, and no other; an activity is logged
    exactly when the borrower has a user record with a group. *)
Theorem postLoans_adds_guarantors
  (insertLoanSchema : InsertLoan → bool) (s : MemStorage.state) (now : Z)
  (d : InsertLoan) (addrs : option (list string)) :
  insertLoanSchema d = true →
  ∃ s' loan gs,
    postLoans insertLoanSchema s now (Some d) addrs = (s', Sent 201 loan)
    ∧ loan_borrowerAddress loan = il_borrowerAddress d
    ∧ loan_amount loan = il_amount d
    ∧ getLoansId s' (loan_id loan) = Sent 200 (loan, gs)
    ∧ map guarantor_guarantorAddress gs = default [] addrs
    ∧ Forall (λ g, guarantor_approved g = Some false
                   ∧ guarantor_loanId g = loan_id loan) gs
    ∧ match truthy_groupId (MemStorage.getUser s (il_borrowerAddress d)) with
      | None => MemStorage.activities s' = MemStorage.activities s
      | Some g =>
          ∃ act,
            MemStorage.activities s'
            = <[g := default [] (MemStorage.activities s !! g) ++ [act]]>
                (MemStorage.activities s)
            ∧ activity_activityType act = "loan_request"%string
            ∧ activity_userAddress act = il_borrowerAddress d
      end.
Proof.
  intros Hok. unfold postLoans. rewrite Hok.
  change (createLoan s now d) with (Ok (MemStorage.createLoan s now d)).
  destruct (MemStorage.createLoan s now d) as [s1 loan] eqn:Hc.
  assert (Hloan : loan_borrowerAddress loan = il_borrowerAddress d
                  ∧ loan_amount loan = il_amount d
                  ∧ MemStorage.loans s1 !! loan_id loan = Some loan
                  ∧ MemStorage.getLoanGuarantors s1 (loan_id loan) = []
                  ∧ MemStorage.users s1 = MemStorage.users s
                  ∧ MemStorage.activities s1 = MemStorage.activities s).
  { unfold MemStorage.createLoan in Hc. injection Hc as <- <-. simpl.
    unfold MemStorage.getLoanGuarantors. simpl. by rewrite !lookup_insert_eq. }
  destruct Hloan as (Hb & Hamt & Hget & Hnone & Hu1 & Ha1).
  destruct (mem_addGuarantors (default [] addrs) s1 (loan_id loan))
    as (s2 & gs & Hadd & Hgs & Hmap & Hall & Hu2 & Hl2 & Ha2).
  rewrite Hadd.
  change (getUser s2 (il_borrowerAddress d))
    with (MemStorage.getUser s2 (il_borrowerAddress d)).
  assert (Huser : MemStorage.getUser s2 (il_borrowerAddress d)
                  = MemStorage.getUser s (il_borrowerAddress d)).
  { unfold MemStorage.getUser. by rewrite Hu2, Hu1. }
  rewrite Huser.
  assert (Hview : ∀ s3 : MemStorage.state,
            MemStorage.loans s3 = MemStorage.loans s2 →
            MemStorage.guarantors s3 = MemStorage.guarantors s2 →
            getLoansId s3 (loan_id loan) = Sent 200 (loan, gs)).
  { intros s3 Hl3 Hg3. unfold getLoansId. simpl. unfold MemStorage.getLoan.
    rewrite Hl3, Hl2, Hget. unfold MemStorage.getLoanGuarantors in *.
    by rewrite Hg3, Hgs, Hnone. }
  destruct (truthy_groupId (MemStorage.getUser s (il_borrowerAddress d))) as [g|].
  - simpl. eexists _, loan, gs. split; [reflexivity|].
    split; [done|]. split; [done|]. split; [by apply Hview|].
    split; [done|]. split; [done|].
    eexists. simpl. rewrite Ha2, Ha1. by repeat split.
  - exists s2, loan, gs. split; [reflexivity|].
    split; [done|]. split; [done|]. split; [by apply Hview|].
    split; [done|]. split; [done|]. by rewrite Ha2, Ha1.
Qed.

Lemma postLoans_adds_guarantors_witness :
  ∃ s' loan gs,
    postLoans (λ _, true) MemStorage.new 1000 (Some (loan_body "0xAbC1" 50 9000))
      (Some ["0xdef2"; "0xdef3"]%string)
    = (s', Sent 201 loan)
    ∧ getLoansId s' (loan_id loan) = Sent 200 (loan, gs)
    ∧ map guarantor_guarantorAddress gs = ["0xdef2"; "0xdef3"]%string.
Proof.
  destruct (postLoans_adds_guarantors (λ _, true) MemStorage.new 1000
              (loan_body "0xAbC1" 50 9000) (Some ["0xdef2"; "0xdef3"]%string) eq_refl)
    as (s' & loan & gs & Hp & _ & _ & Hg & Hmap & _).
  by exists s', loan, gs.
Defined.






Lemma updateGuarantor_first_match_witness :
  let s := (addGuarantors MemStorage.new 1 ["0xdef2"; "0xDEF2"]%string).1 in
  ∃ g0 g1,
    MemStorage.getLoanGuarantors s 1 = [g0; g1]
    ∧ MemStorage.getLoanGuarantors (MemStorage.updateGuarantor s 1 "0XDEF2" true).1 1
      = [DatabaseStorage.set_approved true g0; g1].
Proof.
  intros s.
  pose proof (updateGuarantor_first_match s 1 "0XDEF2" true) as H.
  destruct (MemStorage.updateGuarantor s 1 "0XDEF2" true) as [s' r] eqn:E.
  destruct H as (_ & Hfound & _).
  destruct Hfound as (before & g & after & Hgs & Hb & Hg & Hr & Hgs').
  { apply Exists_cons_hd. apply case_variant_lower. reflexivity. }
  eexists _, _. split; [reflexivity|].
  injection E as <- <-. reflexivity.
Defined.

(** ** [PATCH /api/loans/:id/guarantors/:address] *)




(** ** [GET /api/users/:address] and [GET /api/groups/:id/activities] *)

(** Whatever user record [POST /api/users] answers with, [GET
    /api/users/:address] answers with the same record from then on, for
    every case variant of the address; in [DatabaseStorage] for an address
    of at most 42 characters. *)
Theorem users_api_round_trip
  (insertUserSchema : InsertUser → bool) (body : option InsertUser)
  (d : InsertUser) (now : Z) (a' : string) (u : User) :
  validateUser insertUserSchema body = Some d →
  case_variant a' (iu_address d) →
  (∀ s : MemStorage.state,
     json (postUsers insertUserSchema s now body).2 = UserJson u →
     getUsersAddress (postUsers insertUserSchema s now body).1 a' = Sent 200 u)
  ∧ (∀ s : DatabaseStorage.state,
       (String.length (iu_address d) ≤ 42)%nat →
       json (postUsers insertUserSchema s now body).2 = UserJson u →
       getUsersAddress (postUsers insertUserSchema s now body).1 a' = Sent 200 u).
Proof.
  intros Hv Hcv. split.
  - intros s. unfold postUsers. rewrite Hv.
    change (getUser s (iu_address d)) with (MemStorage.getUser s (iu_address d)).
    change (createUser s now d) with (Ok (MemStorage.createUser s d)).
    pose proof (mem_getUser_createUser s d a' Hcv) as Hget.
    destruct (MemStorage.getUser s (iu_address d)) as [e|] eqn:He.
    + simpl. intros [= <-]. unfold getUsersAddress. simpl.
      unfold MemStorage.getUser in *. apply case_variant_lower in Hcv.
      by rewrite Hcv, He.
    + destruct (MemStorage.createUser s d) as [s' r]. simpl in Hget. simpl.
      intros [= <-]. unfold getUsersAddress.
      change (getUser s' a') with (MemStorage.getUser s' a'). by rewrite Hget.
  - intros s Hfit. unfold postUsers. rewrite Hv. simpl.
    destruct (DatabaseStorage.getUser s (iu_address d)) as [e|] eqn:He; simpl.
    + intros [= <-]. unfold getUsersAddress. simpl.
      unfold DatabaseStorage.getUser in *. apply case_variant_lower in Hcv.
      by rewrite Hcv, He.
    + destruct (DatabaseStorage.createUser s now d) as [[s' r]|err] eqn:Hc; simpl.
      * intros [= <-]. unfold getUsersAddress. simpl.
        by rewrite (db_getUser_createUser s now d s' r a' Hfit Hc Hcv).
      * discriminate.
Qed.

Lemma users_api_round_trip_witness :
  ∃ u,
    json (postUsers (λ _, true) DatabaseStorage.empty 1000
            (Some (user_body "0xAbC1"))).2 = UserJson u
    ∧ getUsersAddress
        (postUsers (λ _, true) DatabaseStorage.empty 1000 (Some (user_body "0xAbC1"))).1
        "0XABC1" = Sent 200 u
    ∧ getUsersAddress
        (postUsers (λ _, true) MemStorage.new 1000 (Some (user_body "0xAbC1"))).1
        "0XABC1"
      = Sent 200 (MemStorage.createUser MemStorage.new (user_body "0xAbC1")).2.
Proof.
  assert (Hcv : case_variant "0XABC1" (iu_address (user_body "0xAbC1"))).
  { apply case_variant_lower. reflexivity. }
  eexists. split; [reflexivity|]. split.
  - apply (proj2 (users_api_round_trip (λ _, true) (Some (user_body "0xAbC1"))
                    (user_body "0xAbC1") 1000 "0XABC1" _ eq_refl Hcv)
             DatabaseStorage.empty); [vm_compute; lia|reflexivity].
  - apply (proj1 (users_api_round_trip (λ _, true) (Some (user_body "0xAbC1"))
                    (user_body "0xAbC1") 1000 "0XABC1" _ eq_refl Hcv)
             MemStorage.new). reflexivity.
Defined.



(** ** The relational round trips, on a database *)

Lemma members_with_account_are_listed_witness :
  ∃ s1 u s2 g,
    DatabaseStorage.createUser DatabaseStorage.empty 1000 (user_body "0xAbC1") = Ok (s1, u)
    ∧ DatabaseStorage.createGroup s1 (group_body "savers" "0xAbC1") = Ok (s2, g)
    ∧ u ∈ DatabaseStorage.getGroupMembers s2 (group_id g).
Proof.
  eexists _, _, _, _. split; [reflexivity|]. split; [reflexivity|].
  apply (proj2 (members_with_account_are_listed _ _) _ "0XABC1"); reflexivity.
Defined.

Lemma db_create_then_get_witness :
  ∃ s' g,
    DatabaseStorage.createGroup DatabaseStorage.empty (group_body "savers" "0xAbC1")
    = Ok (s', g)
    ∧ DatabaseStorage.getGroup s' 1 = Some g
    ∧ DatabaseStorage.getGroup s' 2 = None.
Proof.
  eexists _, _. split; [reflexivity|]. split.
  - exact (proj1 (db_create_then_get DatabaseStorage.empty _ 1)
             (group_body "savers" "0xAbC1") _ eq_refl).
  - exact (proj1 (db_create_then_get DatabaseStorage.empty _ 2)
             (group_body "savers" "0xAbC1") _ eq_refl).
Defined.

Lemma db_insert_then_list_witness :
  ∃ s' l,
    DatabaseStorage.createLoan DatabaseStorage.empty 1000 (loan_body "0xAbC1" 50 9000)
    = Ok (s', l)
    ∧ DatabaseStorage.getUserLoans s' "0XABC1" = [l]
    ∧ DatabaseStorage.getUserLoans s' "0xdef2" = [].
Proof.
  eexists _, _. split; [reflexivity|]. split.
  - exact (proj1 (db_insert_then_list DatabaseStorage.empty _) 1000
             (loan_body "0xAbC1" 50 9000) _ "0XABC1" ltac:(vm_compute; lia) eq_refl).
  - exact (proj1 (db_insert_then_list DatabaseStorage.empty _) 1000
             (loan_body "0xAbC1" 50 9000) _ "0xdef2" ltac:(vm_compute; lia) eq_refl).
Defined.
